(** * AIFriday route-planner front end: the helper functions of
    [frontend/src/utils/helpers.js] and the computations of the components
    [ExportButton.jsx], [RouteTable.jsx], [MapView.jsx],
    [ConstraintsForm.jsx] and [FileUpload.jsx], embedded in Rocq.

    The embedding is shallow.  JavaScript values are modelled as the
    language defines them:
    - a Number is an IEEE-754 binary64 value, carried here by its exact
      rational value ([Fin q]), or one of [NaN], [PosInf], [NegInf]; an
      arithmetic operation that rounds ([+], [*], [/], string-to-number) is
      the exact operation followed by [rnd], round-to-nearest-even onto the
      binary64 grid; operations that are exact by definition ([%],
      [Math.floor], [Math.round], [toFixed], comparisons) work on the
      rational value.  The two zeros are identified: none of the modelled
      functions can tell them apart;
    - a String is a [string]: the text, UTF-8 encoded;
    - an object used as a record is a [gmap string prim] from property
      names to primitive values;
    - a component is modelled by the data it computes for what it renders,
      and an event handler by the state it leaves. *)

From Stdlib Require Import ZArith QArith Qround Qpower Qabs Lqa Lia Ascii String.
From Stdlib Require Import Floats.
From stdpp Require Import gmap strings list.

Local Open Scope Z_scope.

(** ** Numbers *)

Module JSNumber.

Inductive number : Type :=
  | NaN
  | PosInf
  | NegInf
  | Fin (q : Q).

(** binary64: 53 bits of precision, least subnormal [2^-1074], overflow
    threshold [2^1024]. *)
Definition prec : Z := 53.
Definition emin : Z := -1074.
Definition emax : Z := 1024.

Definition pow2 (e : Z) : Q := (2 ^ e)%Q.

(** [ilog2 q] is the integer [k] with [2^k <= q < 2^(k+1)], for [q > 0]. *)
Definition ilog2 (q : Q) : Z :=
  let k := Z.log2 (Qnum q) - Z.log2 (Zpos (Qden q)) in
  if Qle_bool (pow2 k) q then k else k - 1.

(** Nearest integer, ties to the even one. *)
Definition round_half_even (x : Q) : Z :=
  let f := Qfloor x in
  match (x - inject_Z f ?= 1 # 2)%Q with
  | Lt => f
  | Gt => f + 1
  | Eq => if Z.even f then f else f + 1
  end.

(** The exponent of the binary64 grid around [q > 0]: the unit in the last
    place of [q] is [2^(grid_exp q)]. *)
Definition grid_exp (q : Q) : Z := Z.max (ilog2 q - (prec - 1)) emin.

(** Rounding of a positive rational onto the grid, before the overflow
    test. *)
Definition round_pos (q : Q) : Q :=
  (inject_Z (round_half_even (q / pow2 (grid_exp q))) * pow2 (grid_exp q))%Q.

(** Round to nearest, ties to even, overflow to the infinities. *)
Definition rnd (q : Q) : number :=
  match (q ?= 0)%Q with
  | Eq => Fin 0
  | Gt => let r := round_pos q in
          if Qle_bool (pow2 emax) r then PosInf else Fin (Qred r)
  | Lt => let r := round_pos (- q) in
          if Qle_bool (pow2 emax) r then NegInf else Fin (Qred (- r))
  end.

(** A rational is a binary64 value when rounding leaves it where it is. *)
Definition is_binary64 (q : Q) : bool :=
  match rnd q with
  | Fin r => Qeq_bool r q
  | _ => false
  end.

(** A decimal literal [m * 10^-k] of the source text, as the Number it
    denotes. *)
Definition dec (m : Z) (k : nat) : number :=
  rnd (m # Z.to_pos (10 ^ Z.of_nat k)).

(** *** The Number operations the helpers use *)

(** [x < y] on Numbers; a comparison with [NaN] is not true. *)
Definition lessThan (x y : number) : bool :=
  match x, y with
  | NaN, _ | _, NaN => false
  | _, NegInf => false
  | NegInf, _ => true
  | PosInf, _ => false
  | Fin _, PosInf => true
  | Fin a, Fin b => negb (Qle_bool b a)
  end.

(** [x === y] on Numbers. *)
Definition equal (x y : number) : bool :=
  match x, y with
  | PosInf, PosInf | NegInf, NegInf => true
  | Fin a, Fin b => Qeq_bool a b
  | _, _ => false
  end.

(** [x * y]. *)
Definition multiply (x y : number) : number :=
  match x, y with
  | NaN, _ | _, NaN => NaN
  | Fin a, Fin b => rnd (a * b)
  | Fin a, PosInf | PosInf, Fin a =>
      match (a ?= 0)%Q with Eq => NaN | Gt => PosInf | Lt => NegInf end
  | Fin a, NegInf | NegInf, Fin a =>
      match (a ?= 0)%Q with Eq => NaN | Gt => NegInf | Lt => PosInf end
  | PosInf, PosInf | NegInf, NegInf => PosInf
  | PosInf, NegInf | NegInf, PosInf => NegInf
  end.

(** [x / y].  A zero divisor is read as [+0] (the helpers only divide by
    the literal [60]). *)
Definition divide (x y : number) : number :=
  match x, y with
  | NaN, _ | _, NaN => NaN
  | (PosInf | NegInf), (PosInf | NegInf) => NaN
  | PosInf, Fin b => if Qle_bool 0 b then PosInf else NegInf
  | NegInf, Fin b => if Qle_bool 0 b then NegInf else PosInf
  | Fin _, (PosInf | NegInf) => Fin 0
  | Fin a, Fin b =>
      if Qeq_bool b 0 then
        match (a ?= 0)%Q with Eq => NaN | Gt => PosInf | Lt => NegInf end
      else rnd (a / b)
  end.

(** Integer part, towards zero. *)
Definition Qtrunc (q : Q) : Z :=
  if Qle_bool 0 q then Qfloor q else Qceiling q.

(** [x % y]: the remainder of the division truncated towards zero; it is
    exact, no rounding takes place. *)
Definition remainder (x y : number) : number :=
  match x, y with
  | NaN, _ | _, NaN => NaN
  | (PosInf | NegInf), _ => NaN
  | Fin a, (PosInf | NegInf) => Fin a
  | Fin a, Fin b =>
      if Qeq_bool b 0 then NaN
      else Fin (Qred (a - b * inject_Z (Qtrunc (a / b))))
  end.

(** [Math.floor(x)]. *)
Definition floor (x : number) : number :=
  match x with
  | Fin a => Fin (inject_Z (Qfloor a))
  | _ => x
  end.

(** [Math.round(x)]: the nearest integer, a tie going towards [+Infinity]. *)
Definition round (x : number) : number :=
  match x with
  | Fin a => Fin (inject_Z (Qfloor (a + (1 # 2))))
  | _ => x
  end.

(** *** Rocq's primitive binary64 floats, for comparison

    [of_float f] is the Number that the primitive float [f] stands for, and
    [float_of_Z n] the float of a small integer; they serve to check [rnd]
    against the kernel's IEEE-754 arithmetic. *)
Definition of_float (f : float) : number :=
  match Prim2SF f with
  | S754_zero _ => Fin 0
  | S754_infinity false => PosInf
  | S754_infinity true => NegInf
  | S754_nan => NaN
  | S754_finite s m e =>
      Fin (Qred ((if s then -1 else 1) * inject_Z (Zpos m) * pow2 e))
  end.

Definition float_of_Z (n : Z) : float := PrimFloat.of_uint63 (Uint63.of_Z n).


(** An array length or index as a Number. *)
Definition of_nat (n : nat) : number := Fin (inject_Z (Z.of_nat n)).

(** [x + y] on Numbers. *)
Definition add (x y : number) : number :=
  match x, y with
  | NaN, _ | _, NaN => NaN
  | PosInf, NegInf | NegInf, PosInf => NaN
  | PosInf, _ | _, PosInf => PosInf
  | NegInf, _ | _, NegInf => NegInf
  | Fin a, Fin b => rnd (a + b)
  end.

End JSNumber.

Import JSNumber.

(** ** Strings *)

Module JSString.

Local Open Scope string_scope.

(** *** Decimal digits *)

Definition digit_char (d : N) : ascii :=
  match d with
  | 0 => "0" | 1 => "1" | 2 => "2" | 3 => "3" | 4 => "4"
  | 5 => "5" | 6 => "6" | 7 => "7" | 8 => "8" | _ => "9"
  end%char%N.

Fixpoint decimal_go (fuel : nat) (n : N) : string :=
  match fuel with
  | O => ""
  | S fuel' =>
      if (n <? 10)%N then String (digit_char n) ""
      else decimal_go fuel' (n / 10)%N +:+ String (digit_char (n mod 10)%N) ""
  end.

(** The decimal representation of a natural number, no leading zero. *)
Definition decimal (n : N) : string :=
  decimal_go (S (N.to_nat (N.log2 n))) n.

Fixpoint zeros (k : nat) : string :=
  match k with
  | O => ""
  | S k' => String "0"%char (zeros k')
  end.

Fixpoint string_take (k : nat) (s : string) : string :=
  match k, s with
  | S k', String c r => String c (string_take k' r)
  | _, _ => ""
  end.

Fixpoint string_drop (k : nat) (s : string) : string :=
  match k, s with
  | S k', String _ r => string_drop k' r
  | _, _ => s
  end.

(** *** [Number::toString], radix 10 *)

Definition pow10 (e : Z) : Q := (10 ^ e)%Q.

Fixpoint dexp_up (fuel : nat) (q : Q) (n : Z) : Z :=
  match fuel with
  | O => n
  | S fuel' => if Qle_bool (pow10 n) q then dexp_up fuel' q (n + 1) else n
  end.

Fixpoint dexp_down (fuel : nat) (q : Q) (n : Z) : Z :=
  match fuel with
  | O => n
  | S fuel' => if Qle_bool (pow10 (n - 1)) q then n else dexp_down fuel' q (n - 1)
  end.

(** The [n] with [10^(n-1) <= q < 10^n], for [q > 0]: a first guess from
    the binary exponent, corrected by comparison. *)
Definition decimal_exponent (q : Q) : Z :=
  dexp_down 4 q (dexp_up 4 q (ilog2 q * 30103 / 100000)).

(** The [k]-digit candidates for [q]: the two multiples of [10^(n-k)] that
    enclose [q].  One that reads back as [q] is kept, the nearer one when
    both do, the even one on a tie. *)
Definition candidate (q : Q) (n : Z) (k : nat) : option Z :=
  let scale := pow10 (n - Z.of_nat k) in
  let lo := Qfloor (q / scale) in
  let hi := lo + 1 in
  let reads_back (s : Z) :=
    match rnd (inject_Z s * scale) with
    | Fin r => Qeq_bool r q
    | _ => false
    end in
  match reads_back lo, reads_back hi with
  | true, false => Some lo
  | false, true => Some hi
  | false, false => None
  | true, true =>
      match (q - inject_Z lo * scale ?= inject_Z hi * scale - q)%Q with
      | Lt => Some lo
      | Gt => Some hi
      | Eq => Some (if Z.even lo then lo else hi)
      end
  end.

(** The shortest digit string: the least [k] that has a candidate. *)
Fixpoint shortest (fuel : nat) (q : Q) (n : Z) (k : nat) : Z * nat :=
  match fuel with
  | O => (round_half_even (q / pow10 (n - Z.of_nat k)), k)
  | S fuel' =>
      match candidate q n k with
      | Some s => (s, k)
      | None => shortest fuel' q n (S k)
      end
  end.

(** Steps 5 to 10 of [Number::toString] for a positive finite value. *)
Definition toString_pos (q : Q) : string :=
  let n0 := decimal_exponent q in
  let '(s0, k) := shortest 16 q n0 1 in
  let '(s, n) :=
    if (s0 =? 10 ^ Z.of_nat k)%Z then (10 ^ (Z.of_nat k - 1), n0 + 1)
    else (s0, n0) in
  let ds := decimal (Z.to_N s) in
  let kz := Z.of_nat k in
  if ((kz <=? n) && (n <=? 21))%Z then
    ds +:+ zeros (Z.to_nat (n - kz))
  else if ((0 <? n) && (n <=? 21))%Z then
    string_take (Z.to_nat n) ds +:+ "." +:+ string_drop (Z.to_nat n) ds
  else if ((-6 <? n) && (n <=? 0))%Z then
    "0." +:+ zeros (Z.to_nat (- n)) +:+ ds
  else
    let e := n - 1 in
    let es := (if (e <? 0)%Z then "-" else "+") +:+ decimal (Z.to_N (Z.abs e)) in
    if (kz =? 1)%Z then ds +:+ "e" +:+ es
    else string_take 1 ds +:+ "." +:+ string_drop 1 ds +:+ "e" +:+ es.

(** [Number::toString(x)]. *)
Definition NumberToString (x : number) : string :=
  match x with
  | NaN => "NaN"
  | PosInf => "Infinity"
  | NegInf => "-Infinity"
  | Fin q =>
      match (q ?= 0)%Q with
      | Eq => "0"
      | Gt => toString_pos q
      | Lt => "-" +:+ toString_pos (- q)
      end
  end.

(** *** White space and [String.prototype.trim] *)

Definition chr (n : N) : ascii := ascii_of_N n.

Definition bytes (l : list N) : string := string_of_list_ascii (map chr l).

(** The characters of the [WhiteSpace] and [LineTerminator] productions,
    each as its UTF-8 bytes: TAB, LF, VT, FF, CR, SP, U+00A0, U+1680,
    U+2000 to U+200A, U+2028, U+2029, U+202F, U+205F, U+3000, U+FEFF. *)
Definition white_space : list (list ascii) :=
  map (map chr)
    [ [9]; [10]; [11]; [12]; [13]; [32]; [194; 160]; [225; 154; 128];
      [226; 128; 128]; [226; 128; 129]; [226; 128; 130]; [226; 128; 131];
      [226; 128; 132]; [226; 128; 133]; [226; 128; 134]; [226; 128; 135];
      [226; 128; 136]; [226; 128; 137]; [226; 128; 138]; [226; 128; 168];
      [226; 128; 169]; [226; 128; 175]; [226; 129; 159]; [227; 128; 128];
      [239; 187; 191] ]%N.

(** [strip_head p s] is [Some r] when [s = p ++ r]. *)
Fixpoint strip_head (p s : list ascii) : option (list ascii) :=
  match p, s with
  | [], _ => Some s
  | a :: p', b :: s' => if Ascii.eqb a b then strip_head p' s' else None
  | _, _ => None
  end.

(** One leading character of [ws] removed, if there is one. *)
Fixpoint strip_space (ws : list (list ascii)) (s : list ascii)
  : option (list ascii) :=
  match ws with
  | [] => None
  | w :: ws' =>
      match strip_head w s with
      | Some r => Some r
      | None => strip_space ws' s
      end
  end.

Fixpoint drop_space (ws : list (list ascii)) (fuel : nat) (s : list ascii)
  : list ascii :=
  match fuel with
  | O => s
  | S fuel' =>
      match strip_space ws s with
      | Some r => drop_space ws fuel' r
      | None => s
      end
  end.

Definition trimStart (s : string) : string :=
  let l := list_ascii_of_string s in
  string_of_list_ascii (drop_space white_space (length l) l).

Definition trimEnd (s : string) : string :=
  let l := list_ascii_of_string s in
  string_of_list_ascii
    (rev (drop_space (map (@rev ascii) white_space) (length l) (rev l))).

(** [s.trim()]. *)
Definition trim (s : string) : string := trimEnd (trimStart s).

(** [made_of ws l]: [l] is a concatenation of elements of [ws]. *)
Inductive made_of (ws : list (list ascii)) : list ascii -> Prop :=
  | made_nil : made_of ws []
  | made_app w l : w ∈ ws -> made_of ws l -> made_of ws (w ++ l).

(** A text that holds white space only (the empty text included). *)
Definition whitespace_only (s : string) : Prop :=
  made_of white_space (list_ascii_of_string s).

(** *** [StringToNumber]: the [StringNumericLiteral] grammar *)

Definition digit_of (base : N) (c : ascii) : option N :=
  let n := N_of_ascii c in
  let v :=
    if ((48 <=? n) && (n <=? 57))%N then Some (n - 48)%N
    else if ((97 <=? n) && (n <=? 102))%N then Some (n - 87)%N
    else if ((65 <=? n) && (n <=? 70))%N then Some (n - 55)%N
    else None in
  v ≫= fun d => if (d <? base)%N then Some d else None.

(** The longest run of digits at the head of [s]: its value, its length and
    what follows. *)
Fixpoint read_digits (base : N) (s : string) (acc : N) (len : nat)
  : N * nat * string :=
  match s with
  | String c r =>
      match digit_of base c with
      | Some d => read_digits base r (acc * base + d)%N (S len)
      | None => (acc, len, s)
      end
  | "" => (acc, len, s)
  end.

(** The Number for [m * 10^e].  Far outside the binary64 range the result
    is settled by the magnitude alone, so that no huge power is built. *)
Definition scale10 (m : N) (e : Z) : number :=
  if (m =? 0)%N then Fin 0
  else
    let d := Z.of_nat (String.length (decimal m)) in
    if (310 <? e + d)%Z then PosInf
    else if (e + d <? -330)%Z then Fin 0
    else rnd (inject_Z (Z.of_N m) * pow10 e).

Definition negate (x : number) : number :=
  match x with
  | NaN => NaN
  | PosInf => NegInf
  | NegInf => PosInf
  | Fin q => Fin (Qred (- q))
  end.

(** [ExponentPart_opt] followed by the end of the text. *)
Definition read_exponent (s : string) : option Z :=
  match s with
  | "" => Some 0%Z
  | String c r =>
      if Ascii.eqb c "e" || Ascii.eqb c "E" then
        let '(neg, r') :=
          match r with
          | String "-" t => (true, t)
          | String "+" t => (false, t)
          | _ => (false, r)
          end in
        match read_digits 10 r' 0 0 with
        | (_, O, _) => None
        | (v, _, "") => Some (if neg then (- Z.of_N v)%Z else Z.of_N v)
        | _ => None
        end
      else None
  end.

(** [StrUnsignedDecimalLiteral], up to the end of the text. *)
Definition read_unsigned_decimal (s : string) : number :=
  if String.eqb s "Infinity" then PosInf
  else
    let '(ip, ni, r1) := read_digits 10 s 0 0 in
    let '(m, nf, r2) :=
      match r1 with
      | String "." t => let '(m, n, r) := read_digits 10 t ip ni in
                        (m, (n - ni)%nat, r)
      | _ => (ip, O, r1)
      end in
    match (ni + nf)%nat, read_exponent r2 with
    | S _, Some e => scale10 m (e - Z.of_nat nf)
    | _, _ => NaN
    end.

Definition read_radix (base : N) (s : string) : number :=
  match read_digits base s 0 0 with
  | (_, O, _) => NaN
  | (v, _, "") => rnd (inject_Z (Z.of_N v))
  | _ => NaN
  end.

(** [StringToNumber(s)]. *)
Definition StringToNumber (s : string) : number :=
  match trim s with
  | "" => Fin 0
  | String "0" (String c r) as t =>
      if Ascii.eqb c "x" || Ascii.eqb c "X" then read_radix 16 r
      else if Ascii.eqb c "o" || Ascii.eqb c "O" then read_radix 8 r
      else if Ascii.eqb c "b" || Ascii.eqb c "B" then read_radix 2 r
      else read_unsigned_decimal t
  | String "-" r => negate (read_unsigned_decimal r)
  | String "+" r => read_unsigned_decimal r
  | t => read_unsigned_decimal t
  end.

(** *** [parseInt(string)], no radix given

    Leading white space is skipped, then a sign, then [0x] or [0X] selects
    radix 16; the longest run of digits is read, whatever follows it, and
    its value is rounded to a Number.  No digit gives [NaN].  The digits
    are all read (past the 20th digit the language lets an implementation
    read zeros instead). *)
Definition parseInt (inputString : string) : number :=
  let text := trimStart inputString in
  let '(sign, text) :=
    match text with
    | String "-" r => (true, r)
    | String "+" r => (false, r)
    | _ => (false, text)
    end in
  let '(R, text) :=
    match text with
    | String "0" (String c r) =>
        if Ascii.eqb c "x" || Ascii.eqb c "X" then (16%N, r) else (10%N, text)
    | _ => (10%N, text)
    end in
  match read_digits R text 0 0 with
  | (_, O, _) => NaN
  | (mathInt, _, _) =>
      let x := rnd (inject_Z (Z.of_N mathInt)) in
      if sign then negate x else x
  end.

End JSString.

Import JSString.

(** ** Primitive values *)

Module JSValue.

Local Open Scope string_scope.

Inductive prim : Type :=
  | Undefined
  | Null
  | Bool (b : bool)
  | Num (x : number)
  | Str (s : string).

(** [ToBoolean]: [undefined], [null], [false], [0], [NaN] and [''] are
    falsy. *)
Definition ToBoolean (v : prim) : bool :=
  match v with
  | Undefined | Null => false
  | Bool b => b
  | Num NaN => false
  | Num (Fin q) => negb (Qeq_bool q 0)
  | Num _ => true
  | Str s => negb (String.eqb s "")
  end.

Definition ToNumber (v : prim) : number :=
  match v with
  | Undefined => NaN
  | Null => Fin 0
  | Bool true => Fin 1
  | Bool false => Fin 0
  | Num x => x
  | Str s => StringToNumber s
  end.

(** [ToString], as a template literal applies it. *)
Definition ToString (v : prim) : string :=
  match v with
  | Undefined => "undefined"
  | Null => "null"
  | Bool true => "true"
  | Bool false => "false"
  | Num x => NumberToString x
  | Str s => s
  end.

(** [a === b]. *)
Definition strict_equal (a b : prim) : bool :=
  match a, b with
  | Undefined, Undefined | Null, Null => true
  | Bool x, Bool y => Bool.eqb x y
  | Num x, Num y => JSNumber.equal x y
  | Str x, Str y => String.eqb x y
  | _, _ => false
  end.

(** [v < y] and [v > y] against a Number [y]: the comparison is numeric. *)
Definition lt (v : prim) (y : number) : bool := lessThan (ToNumber v) y.
Definition gt (v : prim) (y : number) : bool := lessThan y (ToNumber v).

(** [a || b]. *)
Definition or_else (a b : prim) : prim := if ToBoolean a then a else b.

(** An object whose properties hold primitive values.  [get o k] is
    [o[k]], [has o k] is [k in o]. *)
Definition get (o : gmap string prim) (k : string) : prim :=
  default Undefined (o !! k).
Definition has (o : gmap string prim) (k : string) : bool :=
  bool_decide (is_Some (o !! k)).

(** [a + b]: concatenation when an operand is a String, the sum of the
    numeric values otherwise. *)
Definition plus (a b : prim) : prim :=
  match a, b with
  | Str _, _ | _, Str _ => Str (ToString a +:+ ToString b)
  | _, _ => Num (add (ToNumber a) (ToNumber b))
  end.

End JSValue.

Import JSValue.

(** ** [Math.min] and [Math.max] *)

Module Math.

(** The arguments are coerced to Numbers first; a [NaN] among them is the
    result, otherwise the least (greatest) of them, [+Infinity]
    ([-Infinity]) when there is none. *)
Fixpoint min_from (lowest : number) (coerced : list number) : number :=
  match coerced with
  | [] => lowest
  | NaN :: _ => NaN
  | number :: coerced =>
      min_from (if lessThan number lowest then number else lowest) coerced
  end.

Fixpoint max_from (highest : number) (coerced : list number) : number :=
  match coerced with
  | [] => highest
  | NaN :: _ => NaN
  | number :: coerced =>
      max_from (if lessThan highest number then number else highest) coerced
  end.

Definition min (values : list prim) : number :=
  min_from PosInf (ToNumber <$> values).

Definition max (values : list prim) : number :=
  max_from NegInf (ToNumber <$> values).

End Math.

(** ** Timers: [setTimeout] and [clearTimeout]

    The timers of one window, as far as one debounced function uses them,
    with all times in milliseconds.  A callback is kept as the value of type [A]
    that tells what it will do when it runs. *)

Module Timers.

Section Callbacks.

Context {A : Type}.

Record timers : Type := Timers {
  now : Z;
  last_id : nat;
  pending : gmap nat (Z * A);
}.

(** The delay of a timer is a 32-bit integer, and a negative one counts as
    0. *)
Definition timeout_of (delay : Z) : Z :=
  Z.max 0 ((delay + 2 ^ 31) mod 2 ^ 32 - 2 ^ 31).

(** [setTimeout(callback, delay)]: the identifier of the new timer, which
    is due [delay] milliseconds from now. *)
Definition setTimeout (callback : A) (delay : Z) (t : timers) : nat * timers :=
  let id := S (last_id t) in
  (id, {| now := now t; last_id := id;
          pending := <[id := (now t + timeout_of delay, callback)]> (pending t) |}).

(** [clearTimeout(id)]; [None] is [undefined], which names no timer. *)
Definition clearTimeout (id : option nat) (t : timers) : timers :=
  match id with
  | Some id =>
      {| now := now t; last_id := last_id t; pending := delete id (pending t) |}
  | None => t
  end.

(** The timer that runs first: the one due first, the older one of two
    that are due together. *)
Definition earlier (x y : nat * (Z * A)) : bool :=
  (x.2.1 <? y.2.1) || ((x.2.1 =? y.2.1) && (x.1 <? y.1)%nat).

Definition earliest (p : gmap nat (Z * A)) : option (nat * (Z * A)) :=
  foldr (fun x best =>
           match best with
           | Some y => if earlier y x then Some y else Some x
           | None => Some x
           end) None (map_to_list p).

(** The timers that are due by [limit] run, one after the other; each
    runs when it is due, or now if that time has passed.  The result lists
    the callbacks that ran, with the time at which each did. *)
Fixpoint run_due (fuel : nat) (limit : Z) (t : timers) : timers * list (Z * A) :=
  match fuel with
  | O => (t, [])
  | S fuel' =>
      match earliest (pending t) with
      | Some (id, (due, callback)) =>
          if due <=? limit then
            let time := Z.max due (now t) in
            let '(t', ran) :=
              run_due fuel' limit
                {| now := time; last_id := last_id t;
                   pending := delete id (pending t) |} in
            (t', (time, callback) :: ran)
          else (t, [])
      | None => (t, [])
      end
  end.

(** [ms] milliseconds pass with nothing else to run: the timers that come
    due run. *)
Definition idle (ms : Z) (t : timers) : timers * list (Z * A) :=
  let limit := now t + Z.max 0 ms in
  let '(t', ran) := run_due (size (pending t)) limit t in
  ({| now := limit; last_id := last_id t'; pending := pending t' |}, ran).

(** [ms] milliseconds pass while other code runs: no timer can run. *)
Definition busy (ms : Z) (t : timers) : timers :=
  {| now := now t + Z.max 0 ms; last_id := last_id t; pending := pending t |}.

End Callbacks.

Arguments timers : clear implicits.

End Timers.

(** ** [JSON.parse] *)

Module JSON.

#[local] Set Warnings "-register-all".

Local Open Scope string_scope.

Inductive json : Type :=
  | JNull
  | JBool (b : bool)
  | JNumber (x : number)
  | JString (s : string)
  | JArray (items : list json)
  | JObject (members : list (string * json)).

(** JSON white space: space, tab, line feed, carriage return. *)
Fixpoint skip_ws (s : string) : string :=
  match s with
  | String c r =>
      if Ascii.eqb c " " || Ascii.eqb c (chr 9) || Ascii.eqb c (chr 10)
         || Ascii.eqb c (chr 13)
      then skip_ws r else s
  | "" => ""
  end.

(** UTF-8 of a code point (a lone surrogate is encoded like any other
    three-byte code point). *)
Definition utf8 (cp : N) : string :=
  (if cp <? 128 then bytes [cp]
   else if cp <? 2048 then bytes [192 + cp / 64; 128 + cp mod 64]
   else if cp <? 65536 then
     bytes [224 + cp / 4096; 128 + (cp / 64) mod 64; 128 + cp mod 64]
   else
     bytes [240 + cp / 262144; 128 + (cp / 4096) mod 64;
            128 + (cp / 64) mod 64; 128 + cp mod 64])%N.

(** Four hexadecimal digits. *)
Definition read_hex4 (s : string) : option (N * string) :=
  match s with
  | String a (String b (String c (String d r))) =>
      h1 ← digit_of 16 a; h2 ← digit_of 16 b;
      h3 ← digit_of 16 c; h4 ← digit_of 16 d;
      Some (((h1 * 16 + h2) * 16 + h3) * 16 + h4, r)%N
  | _ => None
  end.

Definition quote : ascii := chr 34.

(** The characters of a string literal after its opening quote, up to and
    including the closing quote. *)
Fixpoint parse_chars (fuel : nat) (s acc : string) : option (string * string) :=
  match fuel with
  | O => None
  | S fuel' =>
      match s with
      | "" => None
      | String c r =>
          if Ascii.eqb c quote then Some (acc, r)
          else if Ascii.eqb c "\" then
            match r with
            | "" => None
            | String e r =>
                let simple (c : ascii) :=
                  parse_chars fuel' r (acc +:+ String c "") in
                if Ascii.eqb e quote then simple quote
                else if Ascii.eqb e "\" then simple "\"%char
                else if Ascii.eqb e "/" then simple "/"%char
                else if Ascii.eqb e "b" then simple (chr 8)
                else if Ascii.eqb e "f" then simple (chr 12)
                else if Ascii.eqb e "n" then simple (chr 10)
                else if Ascii.eqb e "r" then simple (chr 13)
                else if Ascii.eqb e "t" then simple (chr 9)
                else if Ascii.eqb e "u" then
                  match read_hex4 r with
                  | Some (hi, r1) =>
                      let pair :=
                        if ((55296 <=? hi) && (hi <? 56320))%N then
                          match r1 with
                          | String "\" (String "u" r2) =>
                              match read_hex4 r2 with
                              | Some (lo, r3) =>
                                  if ((56320 <=? lo) && (lo <? 57344))%N
                                  then Some (65536 + (hi - 55296) * 1024
                                             + (lo - 56320), r3)%N
                                  else None
                              | None => None
                              end
                          | _ => None
                          end
                        else None in
                      match pair with
                      | Some (cp, r3) => parse_chars fuel' r3 (acc +:+ utf8 cp)
                      | None => parse_chars fuel' r1 (acc +:+ utf8 hi)
                      end
                  | None => None
                  end
                else None
            end
          else if (N_of_ascii c <? 32)%N then None
          else parse_chars fuel' r (acc +:+ String c "")
      end
  end.

(** A number: [-? int frac? exp?], no leading zero in [int]. *)
Definition parse_number (s : string) : option (number * string) :=
  let '(neg, s1) :=
    match s with String "-" r => (true, r) | _ => (false, s) end in
  let '(ip, ni, r1) := read_digits 10 s1 0 0 in
  let leading_zero :=
    match s1 with String "0" _ => negb (ni =? 1)%nat | _ => false end in
  if (ni =? 0)%nat || leading_zero then None
  else
    let frac :=
      match r1 with
      | String "." t =>
          let '(m, n, r) := read_digits 10 t ip ni in
          if (n =? ni)%nat then None else Some (m, (n - ni)%nat, r)
      | _ => Some (ip, O, r1)
      end in
    '(m, nf, r2) ← frac;
    let expo :=
      match r2 with
      | String c t =>
          if Ascii.eqb c "e" || Ascii.eqb c "E" then
            let '(eneg, t') :=
              match t with
              | String "-" u => (true, u)
              | String "+" u => (false, u)
              | _ => (false, t)
              end in
            match read_digits 10 t' 0 0 with
            | (_, O, _) => None
            | (v, _, r) => Some (if eneg then (- Z.of_N v)%Z else Z.of_N v, r)
            end
          else Some (0%Z, r2)
      | "" => Some (0%Z, r2)
      end in
    '(e, r3) ← expo;
    let x := scale10 m (e - Z.of_nat nf) in
    Some (if neg then negate x else x, r3).

(** [o[k] = v] on the member list: an existing key keeps its place.  (The
    members are kept in the order of the text; JavaScript lists keys that
    are array indices first, which nothing here depends on.) *)
Fixpoint set_member (k : string) (v : json) (o : list (string * json))
  : list (string * json) :=
  match o with
  | [] => [(k, v)]
  | (k', v') :: o' =>
      if String.eqb k k' then (k, v) :: o' else (k', v') :: set_member k v o'
  end.

Fixpoint parse_value (fuel : nat) (s : string) : option (json * string) :=
  match fuel with
  | O => None
  | S fuel' =>
      match skip_ws s with
      | String "{" r =>
          match skip_ws r with
          | String "}" r' => Some (JObject [], r')
          | r' => parse_members fuel' r' []
          end
      | String "[" r =>
          match skip_ws r with
          | String "]" r' => Some (JArray [], r')
          | r' => parse_elements fuel' r' []
          end
      | String "t" (String "r" (String "u" (String "e" r))) =>
          Some (JBool true, r)
      | String "f" (String "a" (String "l" (String "s" (String "e" r)))) =>
          Some (JBool false, r)
      | String "n" (String "u" (String "l" (String "l" r))) =>
          Some (JNull, r)
      | String c r as t =>
          if Ascii.eqb c quote then
            '(str, r') ← parse_chars (S (String.length r)) r "";
            Some (JString str, r')
          else '(x, r') ← parse_number t; Some (JNumber x, r')
      | "" => None
      end
  end
with parse_elements (fuel : nat) (s : string) (acc : list json)
  : option (json * string) :=
  match fuel with
  | O => None
  | S fuel' =>
      '(v, r) ← parse_value fuel' s;
      match skip_ws r with
      | String "," r' => parse_elements fuel' r' (acc ++ [v])
      | String "]" r' => Some (JArray (acc ++ [v]), r')
      | _ => None
      end
  end
with parse_members (fuel : nat) (s : string) (acc : list (string * json))
  : option (json * string) :=
  match fuel with
  | O => None
  | S fuel' =>
      match skip_ws s with
      | String c r =>
          if Ascii.eqb c quote then
            '(k, r1) ← parse_chars (S (String.length r)) r "";
            match skip_ws r1 with
            | String ":" r2 =>
                '(v, r3) ← parse_value fuel' r2;
                match skip_ws r3 with
                | String "," r4 => parse_members fuel' r4 (set_member k v acc)
                | String "}" r4 => Some (JObject (set_member k v acc), r4)
                | _ => None
                end
            | _ => None
            end
          else None
      | "" => None
      end
  end.

(** [JSON.parse(text)]; [None] stands for the [SyntaxError] it throws.
    The fuel is the length of the text: every call takes a character. *)
Definition parse (text : string) : option json :=
  '(v, r) ← parse_value (S (String.length text)) text;
  match skip_ws r with
  | "" => Some v
  | _ => None
  end.

End JSON.

Import JSON.

(** ** [utils/helpers.js] *)

Module Helpers.

Local Open Scope string_scope.

(** [array.forEach((item, index) => ...)] where the callback updates a
    state [S]: the items are visited in index order. *)
Fixpoint forEach_from {A St : Type} (f : St -> A -> nat -> St) (i : nat)
    (l : list A) (s : St) : St :=
  match l with
  | [] => s
  | x :: l' => forEach_from f (S i) l' (f s x i)
  end.

Definition forEach {A St : Type} (f : St -> A -> nat -> St) (l : list A)
    (s : St) : St := forEach_from f 0 l s.

(** [array.push(x)]. *)
Definition push {A : Type} (l : list A) (x : A) : list A := l ++ [x].

(** [array.reduce((acc, item) => ..., initial)]. *)
Definition reduce {A B : Type} (f : B -> A -> B) (initial : B) (l : list A) : B :=
  foldl f initial l.

(** The result of a validation: [{ isValid, errors }]. *)
Record validation (E : Type) : Type := Validation {
  isValid : bool;
  errors : E;
}.
Arguments Validation {E} _ _.
Arguments isValid {E} _.
Arguments errors {E} _.

(** *** [parseJSON] *)

(** What [FileReader.readAsText] delivers: [onload] with the text, or
    [onerror]. *)
Inductive fileRead : Type :=
  | Loaded (result : string)
  | ReadError.

(** A settled promise. *)
Inductive settled (A : Type) : Type :=
  | Resolved (value : A)
  | Rejected (message : string).
Arguments Resolved {A} _.
Arguments Rejected {A} _.

Definition parseJSON (file : fileRead) : settled (list json) :=
  match file with
  | Loaded result =>
      match JSON.parse result with
      | Some data =>
          Resolved (match data with JArray items => items | _ => [data] end)
      | None => Rejected "Invalid JSON format"
      end
  | ReadError => Rejected "Failed to read file"
  end.

(** *** [validateDeliveryData] *)

(** The argument of [validateDeliveryData]: an array of records, or
    anything that is not an array. *)
Inductive deliveryData : Type :=
  | NotAnArray
  | Array (data : list (gmap string prim)).

Definition requiredFields : list string :=
  ["id"; "customer_name"; "lat"; "lng"; "address"].

Definition row_label (index : nat) : string :=
  "Row " +:+ decimal (N.of_nat (index + 1)).

Definition validateDeliveryData (data : deliveryData)
  : validation (list string) :=
  let errors : list string := [] in
  match data with
  | NotAnArray | Array [] =>
      Validation false ["Data must be a non-empty array"]
  | Array data =>
      let errors :=
        forEach (fun errors item index =>
          let errors :=
            foldl (fun errors field =>
              if negb (has item field)
                 || strict_equal (get item field) Null
                 || strict_equal (get item field) Undefined
                 || strict_equal (get item field) (Str "")
              then push errors
                     (row_label index +:+ ": Missing or empty field '"
                      +:+ field +:+ "'")
              else errors) errors requiredFields in
          let errors :=
            if ToBoolean (get item "lat")
               && (lt (get item "lat") (Fin (-90))
                   || gt (get item "lat") (Fin 90))
            then push errors
                   (row_label index +:+ ": Invalid latitude value ("
                    +:+ ToString (get item "lat") +:+ ")")
            else errors in
          let errors :=
            if ToBoolean (get item "lng")
               && (lt (get item "lng") (Fin (-180))
                   || gt (get item "lng") (Fin 180))
            then push errors
                   (row_label index +:+ ": Invalid longitude value ("
                    +:+ ToString (get item "lng") +:+ ")")
            else errors in
          errors) data errors in
      Validation (length errors =? 0)%nat (take 10 errors)
  end.

(** *** [formatDistance] *)

(** [Number.prototype.toFixed(f)]. *)
Definition toFixed (x : number) (f : nat) : string :=
  match x with
  | Fin q =>
      let '(s, a) := if Qle_bool 0 q then ("", q) else ("-", (- q)%Q) in
      if Qle_bool (inject_Z (10 ^ 21)) a then s +:+ NumberToString (Fin a)
      else
        let n := Z.to_N (Qfloor (a * inject_Z (10 ^ Z.of_nat f) + (1 # 2))) in
        let m := decimal n in
        let m :=
          match f with
          | O => m
          | S _ =>
              let k := String.length m in
              let m := if (k <=? f)%nat then zeros (f + 1 - k) +:+ m else m in
              let k := String.length m in
              string_take (k - f) m +:+ "." +:+ string_drop (k - f) m
          end in
        s +:+ m
  | _ => NumberToString x
  end.

Definition formatDistance (distance : number) : string :=
  if lessThan distance (Fin 1) then
    toFixed (multiply distance (Fin 1000)) 0 +:+ " m"
  else toFixed distance 2 +:+ " km".

(** *** [formatTime] *)

Definition formatTime (minutes : number) : string :=
  let hours := JSNumber.floor (divide minutes (Fin 60)) in
  let mins := JSNumber.round (remainder minutes (Fin 60)) in
  if JSNumber.equal hours (Fin 0) then NumberToString mins +:+ " min"
  else NumberToString hours +:+ "h " +:+ NumberToString mins +:+ "m".

(** *** [getRouteColor] *)

Definition colors : list string :=
  [ "#3B82F6"; "#EF4444"; "#10B981"; "#F59E0B";
    "#8B5CF6"; "#EC4899"; "#14B8A6"; "#F97316" ].

(** A route index is an array index: a natural number.  [None] stands for
    [undefined], what reading past the end of an array gives. *)
Definition getRouteColor (index : nat) : option string :=
  colors !! (index mod length colors)%nat.

(** *** [validateConstraints] *)

(** The form state: the two counts are Numbers, or [''] while the input is
    empty ([parseInt(value) || '']); the start location is text. *)
Record constraints : Type := Constraints {
  maxStopsPerRoute : prim;
  vehicleCapacity : prim;
  startLocation : string;
}.

Definition validateConstraints (constraints : constraints)
  : validation (gmap string string) :=
  let errors : gmap string string := ∅ in
  let errors :=
    if negb (ToBoolean (maxStopsPerRoute constraints))
       || lt (maxStopsPerRoute constraints) (Fin 1)
    then <["maxStopsPerRoute" := "Must be at least 1"]> errors
    else errors in
  let errors :=
    if negb (ToBoolean (vehicleCapacity constraints))
       || lt (vehicleCapacity constraints) (Fin 1)
    then <["vehicleCapacity" := "Must be at least 1"]> errors
    else errors in
  let errors :=
    if negb (ToBoolean (Str (startLocation constraints)))
       || String.eqb (trim (startLocation constraints)) ""
    then <["startLocation" := "Start location is required"]> errors
    else errors in
  Validation (length (elements (dom errors)) =? 0)%nat errors.


(** *** [calculateMapBounds] *)

(** [points] is an array of objects, or [None] for [null] and
    [undefined]; the result is [[minLat, minLng], [maxLat, maxLng]]. *)
Definition calculateMapBounds (points : option (list (gmap string prim)))
  : (number * number) * (number * number) :=
  match points with
  | None | Some [] => ((Fin 0, Fin 0), (Fin 0, Fin 0))
  | Some points =>
      let lats := (fun p => get p "lat") <$> points in
      let lngs := (fun p => get p "lng") <$> points in
      ((Math.min lats, Math.min lngs), (Math.max lats, Math.max lngs))
  end.

End Helpers.

Import Helpers.

(** ** [debounce] of [utils/helpers.js] *)

Module Debounce.

Import Timers.

Section Debounced.

(** The arguments of a call. *)
Context {A : Type}.

(** The state that a debounced function works on: the timers, its variable
    [timeoutId], and the calls of [func] made so far, each with its time
    and its arguments. *)
Record debounced : Type := Debounced {
  window_timers : timers A;
  timeoutId : option nat;
  calls : list (Z * A);
}.

(** One call [debounced(...args)] of the function that
    [debounce(func, delay)] returns; [delay = None] is the default of 300
    milliseconds. *)
Definition debounce (delay : option Z) (args : A) (w : debounced) : debounced :=
  let delay := default 300 delay in
  let t := clearTimeout (timeoutId w) (window_timers w) in
  let '(id, t) := setTimeout args delay t in
  {| window_timers := t; timeoutId := Some id; calls := calls w |}.

(** What happens to a debounced function: it is called, time passes while
    other code runs, or time passes with the event loop free. *)
Inductive event : Type :=
  | Invoke (args : A)
  | Busy (ms : Z)
  | Idle (ms : Z).

Definition step (delay : option Z) (w : debounced) (e : event) : debounced :=
  match e with
  | Invoke args => debounce delay args w
  | Busy ms =>
      {| window_timers := busy ms (window_timers w); timeoutId := timeoutId w;
         calls := calls w |}
  | Idle ms =>
      let '(t, ran) := idle ms (window_timers w) in
      {| window_timers := t; timeoutId := timeoutId w; calls := calls w ++ ran |}
  end.

Definition run (delay : option Z) (trace : list event) (w : debounced) : debounced :=
  foldl (step delay) w trace.

(** The state in which [debounce] has just returned the function. *)
Definition fresh (time : Z) : debounced :=
  {| window_timers := {| now := time; last_id := 0; pending := ∅ |};
     timeoutId := None; calls := [] |}.

End Debounced.

Arguments debounced : clear implicits.
Arguments event : clear implicits.

End Debounce.

(** ** [components/ExportButton.jsx] *)

Module ExportButton.

Local Open Scope string_scope.

(** A route of the optimizer's answer: its stops (objects with an [id] and
    an optional [distance]) and its totals. *)
Record route : Type := Route {
  stops : list (gmap string prim);
  total_distance : prim;
  estimated_time : prim;
}.

(** The [routeData] prop; [None] is an absent ([undefined]) property. *)
Record routeData : Type := RouteData {
  routes : option (list route);
  delivery_points : option (list (gmap string prim));
}.

(** One row of the flattened CSV. *)
Record row : Type := Row {
  route_id : prim;
  stop_sequence : prim;
  customer_id : prim;
  customer_name : prim;
  address : prim;
  latitude : prim;
  longitude : prim;
  delivery_window : prim;
  distance_from_previous : prim;
  route_total_distance : prim;
  route_estimated_time : prim;
}.

(** [index + 1] on an array index. *)
Definition succ_index (index : nat) : prim :=
  Num (Fin (inject_Z (Z.of_nat (index + 1)))).

(** [handleExportCSV]: the array it hands to [exportToCSV]. *)
Definition handleExportCSV (routeData : routeData) : list row :=
  let flattenedData : list row := [] in
  match routes routeData with
  | None => flattenedData
  | Some routes =>
      forEach (fun flattenedData route routeIndex =>
        forEach (fun flattenedData stop stopIndex =>
          let point : gmap string prim :=
            default ∅
              (delivery_points routeData ≫=
                 List.find (fun p => strict_equal (get p "id") (get stop "id"))) in
          push flattenedData
            {| route_id := succ_index routeIndex;
               stop_sequence := succ_index stopIndex;
               customer_id := get stop "id";
               customer_name := or_else (get point "customer_name") (Str "");
               address := or_else (get point "address") (Str "");
               latitude := or_else (get point "lat") (Str "");
               longitude := or_else (get point "lng") (Str "");
               delivery_window := or_else (get point "delivery_window") (Str "");
               distance_from_previous := or_else (get stop "distance") (Str "");
               route_total_distance := or_else (total_distance route) (Str "");
               route_estimated_time := or_else (estimated_time route) (Str "");
            |}) (stops route) flattenedData) routes flattenedData
  end.


(** The [summary] of the object that [handleExportJSON] exports. *)
Record summary : Type := Summary {
  summary_total_routes : prim;
  summary_total_stops : prim;
  summary_total_distance : prim;
}.

Definition handleExportJSON_summary (routeData : routeData) : summary :=
  {| summary_total_routes :=
       or_else (default Undefined
                  ((fun routes => Num (of_nat (length routes))) <$> routes routeData))
               (Num (Fin 0));
     summary_total_stops :=
       or_else (default Undefined
                  ((fun routes =>
                      reduce (fun acc route =>
                                plus acc (Num (of_nat (length (stops route)))))
                             (Num (Fin 0)) routes) <$> routes routeData))
               (Num (Fin 0));
     summary_total_distance :=
       or_else (default Undefined
                  ((fun routes =>
                      reduce (fun acc route =>
                                plus acc (or_else (total_distance route) (Num (Fin 0))))
                             (Num (Fin 0)) routes) <$> routes routeData))
               (Num (Fin 0)) |}.

End ExportButton.

Import ExportButton.

(** ** [components/RouteTable.jsx] *)

Module RouteTable.

Local Open Scope string_scope.

(** The set of expanded routes, by route index. *)
Definition toggleRoute (expandedRoutes : gset nat) (routeIndex : nat) : gset nat :=
  let newExpanded := expandedRoutes in
  if bool_decide (routeIndex ∈ newExpanded)
  then newExpanded ∖ {[ routeIndex ]}
  else newExpanded ∪ {[ routeIndex ]}.

Definition getPointDetails (deliveryPoints : list (gmap string prim))
    (pointId : prim) : gmap string prim :=
  default ∅ (List.find (fun p => strict_equal (get p "id") pointId) deliveryPoints).

(** The totals [{ stops, distance, time }]. *)
Record metrics : Type := Metrics {
  metrics_stops : prim;
  metrics_distance : prim;
  metrics_time : prim;
}.

Definition getTotalMetrics (routes : list route) : metrics :=
  reduce (fun acc route =>
            {| metrics_stops :=
                 plus (metrics_stops acc) (Num (of_nat (length (stops route))));
               metrics_distance :=
                 plus (metrics_distance acc)
                      (or_else (total_distance route) (Num (Fin 0)));
               metrics_time :=
                 plus (metrics_time acc)
                      (or_else (estimated_time route) (Num (Fin 0))) |})
         {| metrics_stops := Num (Fin 0); metrics_distance := Num (Fin 0);
            metrics_time := Num (Fin 0) |}
         routes.

End RouteTable.

(** ** [components/MapView.jsx] *)

Module MapView.

Local Open Scope string_scope.

(** The test [startLocation && startLocation.lat && startLocation.lng];
    [None] is a [null] start location. *)
Definition startLocation_given (startLocation : option (gmap string prim)) : bool :=
  match startLocation with
  | Some s => ToBoolean (get s "lat") && ToBoolean (get s "lng")
  | None => false
  end.

(** [array.unshift(x)]. *)
Definition unshift {A : Type} (l : list A) (x : A) : list A := x :: l.

Definition getAllPoints (deliveryPoints : list (gmap string prim))
    (startLocation : option (gmap string prim)) : list (gmap string prim) :=
  let points := deliveryPoints in
  match startLocation with
  | Some s =>
      if startLocation_given startLocation then unshift points s else points
  | None => points
  end.

(** What a [Polyline] is given. *)
Record polyline : Type := Polyline {
  polyline_color : option string;
  positions : list (prim * prim);
}.

Definition position (point : gmap string prim) : prim * prim :=
  (get point "lat", get point "lng").

(** [None] is the [null] that is rendered when there is no route. *)
Definition renderRoutes (deliveryPoints : list (gmap string prim))
    (routes : list route) (startLocation : option (gmap string prim))
  : option (list polyline) :=
  match routes with
  | [] => None
  | _ =>
    Some (imap (fun routeIndex route =>
      let color := getRouteColor routeIndex in
      let positions : list (prim * prim) := [] in
      let positions :=
        match startLocation with
        | Some s => if startLocation_given startLocation
                    then push positions (position s) else positions
        | None => positions
        end in
      let positions :=
        forEach (fun positions stop _ =>
          match List.find (fun p => strict_equal (get p "id") (get stop "id"))
                          deliveryPoints with
          | Some point => push positions (position point)
          | None => positions
          end) (stops route) positions in
      let positions :=
        match startLocation with
        | Some s => if startLocation_given startLocation
                    then push positions (position s) else positions
        | None => positions
        end in
      {| polyline_color := color; positions := positions |}) routes)
  end.

(** [array.findIndex(f)]: the first index whose item passes, or [-1]. *)
Fixpoint findIndex_from {A : Type} (f : A -> bool) (i : Z) (l : list A) : Z :=
  match l with
  | [] => (-1)%Z
  | x :: l' => if f x then i else findIndex_from f (i + 1)%Z l'
  end.

Definition findIndex {A : Type} (f : A -> bool) (l : list A) : Z :=
  findIndex_from f 0 l.

(** What a delivery point's [Marker] is given. *)
Record marker : Type := Marker {
  marker_position : prim * prim;
  marker_color : option string;
  label : prim;
  routeIndex : Z;
  stopNumber : Z;
}.

Definition renderMarkers (deliveryPoints : list (gmap string prim))
    (routes : list route) : list marker :=
  (fun point =>
     let '(routeIndex, stopNumber) :=
       forEach (fun '(routeIndex, stopNumber) route rIndex =>
                  let stopIndex :=
                    findIndex (fun s => strict_equal (get s "id") (get point "id"))
                              (stops route) in
                  if negb (stopIndex =? -1)%Z
                  then (Z.of_nat rIndex, (stopIndex + 1)%Z)
                  else (routeIndex, stopNumber))
               routes (-1, -1)%Z in
     let color :=
       if (0 <=? routeIndex)%Z then getRouteColor (Z.to_nat routeIndex)
       else Some "#6B7280" in
     let label :=
       if (0 <? stopNumber)%Z then Num (Fin (inject_Z stopNumber)) else Str "?" in
     {| marker_position := position point; marker_color := color;
        label := label; routeIndex := routeIndex; stopNumber := stopNumber |})
  <$> deliveryPoints.

End MapView.

(** ** [components/ConstraintsForm.jsx] *)

Module ConstraintsForm.

Local Open Scope string_scope.

(** The inputs of the form, by their [name]. *)
Inductive name : Type :=
  | MaxStopsPerRoute
  | DeliveryWindowStart
  | DeliveryWindowEnd
  | VehicleCapacity
  | StartLocation
  | StartLat
  | StartLng.

#[global] Instance name_eq_dec : EqDecision name.
Proof. solve_decision. Defined.

(** The [constraints] state: the two counts are what [parseInt(value) || '']
    leaves, the other fields the text of their input. *)
Record fields : Type := Fields {
  field_maxStopsPerRoute : prim;
  deliveryWindowStart : string;
  deliveryWindowEnd : string;
  field_vehicleCapacity : prim;
  field_startLocation : string;
  startLat : string;
  startLng : string;
}.

(** The initial state when no [initialConstraints] is given. *)
Definition initial_fields : fields :=
  {| field_maxStopsPerRoute := Num (Fin 10);
     deliveryWindowStart := "08:00";
     deliveryWindowEnd := "18:00";
     field_vehicleCapacity := Num (Fin 100);
     field_startLocation := "";
     startLat := "";
     startLng := "" |}.

(** What [validateConstraints] reads of the state. *)
Definition validated (c : fields) : constraints :=
  {| maxStopsPerRoute := field_maxStopsPerRoute c;
     vehicleCapacity := field_vehicleCapacity c;
     startLocation := field_startLocation c |}.

(** [{ ...constraints, [name]: ... }]. *)
Definition update (c : fields) (n : name) (value : string) : fields :=
  match n with
  | MaxStopsPerRoute =>
      {| field_maxStopsPerRoute := or_else (Num (parseInt value)) (Str "");
         deliveryWindowStart := deliveryWindowStart c;
         deliveryWindowEnd := deliveryWindowEnd c;
         field_vehicleCapacity := field_vehicleCapacity c;
         field_startLocation := field_startLocation c;
         startLat := startLat c; startLng := startLng c |}
  | VehicleCapacity =>
      {| field_maxStopsPerRoute := field_maxStopsPerRoute c;
         deliveryWindowStart := deliveryWindowStart c;
         deliveryWindowEnd := deliveryWindowEnd c;
         field_vehicleCapacity := or_else (Num (parseInt value)) (Str "");
         field_startLocation := field_startLocation c;
         startLat := startLat c; startLng := startLng c |}
  | DeliveryWindowStart =>
      {| field_maxStopsPerRoute := field_maxStopsPerRoute c;
         deliveryWindowStart := value;
         deliveryWindowEnd := deliveryWindowEnd c;
         field_vehicleCapacity := field_vehicleCapacity c;
         field_startLocation := field_startLocation c;
         startLat := startLat c; startLng := startLng c |}
  | DeliveryWindowEnd =>
      {| field_maxStopsPerRoute := field_maxStopsPerRoute c;
         deliveryWindowStart := deliveryWindowStart c;
         deliveryWindowEnd := value;
         field_vehicleCapacity := field_vehicleCapacity c;
         field_startLocation := field_startLocation c;
         startLat := startLat c; startLng := startLng c |}
  | StartLocation =>
      {| field_maxStopsPerRoute := field_maxStopsPerRoute c;
         deliveryWindowStart := deliveryWindowStart c;
         deliveryWindowEnd := deliveryWindowEnd c;
         field_vehicleCapacity := field_vehicleCapacity c;
         field_startLocation := value;
         startLat := startLat c; startLng := startLng c |}
  | StartLat =>
      {| field_maxStopsPerRoute := field_maxStopsPerRoute c;
         deliveryWindowStart := deliveryWindowStart c;
         deliveryWindowEnd := deliveryWindowEnd c;
         field_vehicleCapacity := field_vehicleCapacity c;
         field_startLocation := field_startLocation c;
         startLat := value; startLng := startLng c |}
  | StartLng =>
      {| field_maxStopsPerRoute := field_maxStopsPerRoute c;
         deliveryWindowStart := deliveryWindowStart c;
         deliveryWindowEnd := deliveryWindowEnd c;
         field_vehicleCapacity := field_vehicleCapacity c;
         field_startLocation := field_startLocation c;
         startLat := startLat c; startLng := value |}
  end.

(** The state of the component; [touched n] is [touched[name]]. *)
Record state : Type := State {
  constraints : fields;
  errors : gmap string string;
  touched : name -> bool;
}.

Definition initial_state : state :=
  {| constraints := initial_fields; errors := ∅; touched := fun _ => false |}.

(** [handleChange]: the next state, and the constraints the parent is
    notified of. *)
Definition handleChange (n : name) (value : string) (st : state)
  : state * fields :=
  let newConstraints := update (constraints st) n value in
  let errors :=
    if touched st n
    then Helpers.errors (validateConstraints (validated newConstraints))
    else errors st in
  ({| constraints := newConstraints; errors := errors; touched := touched st |},
   newConstraints).

Definition handleBlur (n : name) (st : state) : state :=
  {| constraints := constraints st;
     errors := Helpers.errors (validateConstraints (validated (constraints st)));
     touched := fun m => if decide (m = n) then true else touched st m |}.

End ConstraintsForm.

(** ** [components/FileUpload.jsx] *)

Module FileUpload.

Local Open Scope string_scope.

Definition validTypes : list string :=
  ["text/csv"; "application/json"; "application/vnd.ms-excel"].

Definition validExtensions : list string := [".csv"; ".json"].

(** [array.includes(x)] on texts. *)
Definition includes (l : list string) (x : string) : bool :=
  existsb (String.eqb x) l.

Inductive parser : Type :=
  | ParseCSV
  | ParseJSON.

(** [handleFile], from the computed [fileExtension] to the choice of the
    parser.  [Rejected] is the file turned away for its type; [Resolved
    None] is the case in which neither branch assigns [data]. *)
Definition handleFile_parser (file_type fileExtension : string)
  : settled (option parser) :=
  if negb (includes validTypes file_type)
     && negb (includes validExtensions fileExtension)
  then Rejected "Invalid file type. Please upload a CSV or JSON file."
  else
    if String.eqb fileExtension ".csv" || String.eqb file_type "text/csv"
       || String.eqb file_type "application/vnd.ms-excel"
    then Resolved (Some ParseCSV)
    else if String.eqb fileExtension ".json"
            || String.eqb file_type "application/json"
    then Resolved (Some ParseJSON)
    else Resolved None.

End FileUpload.

(** * What the specification says of these functions

    The properties below are stated with the help of a few definitions
    that follow the words of the specification rather than the code. *)

Module Spec.

Local Open Scope string_scope.

(** ** Validation of delivery data *)

(** A required field is missing or empty: the property is absent, or its
    value is [null], [undefined] or the empty string. *)
Definition absent_or_empty (item : gmap string prim) (field : string) : bool :=
  match item !! field with
  | None | Some Null | Some Undefined | Some (Str "") => true
  | Some _ => false
  end.

(** A coordinate is reported: it is truthy and its numeric value lies
    outside [lo, hi]. *)
Definition out_of_range (v : prim) (lo hi : number) : bool :=
  ToBoolean v && (lt v lo || gt v hi).

Definition field_errors (index : nat) (item : gmap string prim) : list string :=
  (fun field =>
     row_label index +:+ ": Missing or empty field '" +:+ field +:+ "'")
  <$> filter (fun field => absent_or_empty item field = true) requiredFields.

Definition lat_errors (index : nat) (item : gmap string prim) : list string :=
  if out_of_range (get item "lat") (Fin (-90)) (Fin 90)
  then [row_label index +:+ ": Invalid latitude value ("
        +:+ ToString (get item "lat") +:+ ")"]
  else [].

Definition lng_errors (index : nat) (item : gmap string prim) : list string :=
  if out_of_range (get item "lng") (Fin (-180)) (Fin 180)
  then [row_label index +:+ ": Invalid longitude value ("
        +:+ ToString (get item "lng") +:+ ")"]
  else [].

(** The errors of one record, and of all the records in order: the full,
    untruncated list. *)
Definition item_errors (index : nat) (item : gmap string prim) : list string :=
  field_errors index item ++ lat_errors index item ++ lng_errors index item.

Definition collected (data : list (gmap string prim)) : list string :=
  concat (imap item_errors data).

(** The result reports the collected errors: invalid exactly when there
    is one, and the first ten of them listed. *)
Definition reports_collected (data : list (gmap string prim)) : Prop :=
  let result := validateDeliveryData (Array data) in
  (isValid result = false <-> collected data <> [])
  /\ errors result
     = take (Nat.min (length (collected data)) 10) (collected data).

(** All five required fields are present and non-empty. *)
Definition complete (item : gmap string prim) : Prop :=
  forall field, field ∈ requiredFields -> absent_or_empty item field = false.

(** "A record is rejected whenever a required field's value is falsy." *)
Definition rejects_falsy (item : gmap string prim) : Prop :=
  forall field, field ∈ requiredFields ->
    ToBoolean (get item field) = false ->
    isValid (validateDeliveryData (Array [item])) = false.


(** A record on the equator and the prime meridian, and one whose
    latitude is text and whose longitude is out of range. *)
Definition null_island : gmap string prim :=
  {[ "id" := Num (Fin 1); "customer_name" := Str "Test";
     "lat" := Num (Fin 0); "lng" := Num (Fin 0);
     "address" := Str "123 Main St" ]}.


(** ** [parseJSON] *)

(** A JSON text written with apostrophes where it has quotation marks. *)
Fixpoint json_text (s : string) : string :=
  match s with
  | "" => ""
  | String c r =>
      String (if Ascii.eqb c "'" then JSON.quote else c) (json_text r)
  end.

Definition array_or_object (v : json) : bool :=
  match v with
  | JArray _ | JObject _ => true
  | _ => false
  end.

(** "[parseJSON] succeeds exactly on payloads that decode to an array
    (returned as it is) or to a single object (returned wrapped in an
    array); anything else is rejected." *)
Definition accepts_arrays_and_objects_only (text : string) : Prop :=
  match parseJSON (Loaded text) with
  | Resolved items =>
      exists v, JSON.parse text = Some v /\ array_or_object v = true
                /\ items = match v with JArray l => l | _ => [v] end
  | Rejected _ =>
      forall v, JSON.parse text = Some v -> array_or_object v = false
  end.

(** ** Formatting *)

(** [d] kilometres as a whole number of metres: the product [d * 1000],
    rounded to the nearest integer. *)
Definition whole_meters (d : Q) (s : string) : Prop :=
  exists v, multiply (Fin d) (Fin 1000) = Fin v
    /\ s = decimal (Z.to_N (Qfloor (v + (1 # 2)))) +:+ " m".

(** [d] kilometres with exactly two decimals: the digits of the nearest
    hundredth. *)
Definition km_two_decimals (d : Q) (s : string) : Prop :=
  let n := Z.to_N (Qfloor (d * 100 + (1 # 2))) in
  s = decimal (n / 100) +:+ "."
      +:+ String (digit_char ((n / 10) mod 10))
                 (String (digit_char (n mod 10)) "")
      +:+ " km".

Definition renders_distance (d : Q) : Prop :=
  ((d < 1)%Q -> whole_meters d (formatDistance (Fin d)))
  /\ ((1 <= d)%Q -> km_two_decimals d (formatDistance (Fin d))).

(** The minutes left over the whole hours, rounded: [m mod 60] to the
    nearest integer. *)
Definition leftover_minutes (m : Q) : Z :=
  Qfloor (m - 60 * inject_Z (Qfloor (m / 60)) + (1 # 2)).


(** ** The CSV export *)

(** The delivery point a stop refers to: the first one whose [id] is the
    stop's. *)
Definition point_of (points : option (list (gmap string prim)))
    (stop : gmap string prim) : option (gmap string prim) :=
  points ≫= List.find (fun p => strict_equal (get p "id") (get stop "id")).

(** "Each row carries the customer fields of the delivery point whose id
    equals the stop's id." *)
Definition carries_customer_fields (rd : routeData) : Prop :=
  forall (ri si : nat) route stop point,
    routes rd ≫= (.!! ri) = Some route ->
    stops route !! si = Some stop ->
    point_of (delivery_points rd) stop = Some point ->
    exists r, r ∈ handleExportCSV rd
      /\ route_id r = succ_index ri /\ stop_sequence r = succ_index si
      /\ customer_name r = get point "customer_name"
      /\ address r = get point "address"
      /\ latitude r = get point "lat"
      /\ longitude r = get point "lng"
      /\ delivery_window r = get point "delivery_window".

(** A plan with one route and one stop, at latitude 0 and longitude 0. *)
Definition null_island_plan : routeData :=
  {| routes := Some [ {| stops := [ {[ "id" := Num (Fin 1) ]} ];
                         total_distance := Num (Fin 12);
                         estimated_time := Num (Fin 30) |} ];
     delivery_points :=
       Some [ <["delivery_window" := Str "09:00-17:00"]> null_island ] |}.

(** The row of one (route, stop) pair: a value that is falsy, or missing,
    is replaced by the empty string. *)
Definition row_of (points : option (list (gmap string prim)))
    (ri : nat) (route : route) (si : nat) (stop : gmap string prim) : row :=
  let point := default ∅ (point_of points stop) in
  {| route_id := succ_index ri;
     stop_sequence := succ_index si;
     customer_id := get stop "id";
     customer_name := or_else (get point "customer_name") (Str "");
     address := or_else (get point "address") (Str "");
     latitude := or_else (get point "lat") (Str "");
     longitude := or_else (get point "lng") (Str "");
     delivery_window := or_else (get point "delivery_window") (Str "");
     distance_from_previous := or_else (get stop "distance") (Str "");
     route_total_distance := or_else (total_distance route) (Str "");
     route_estimated_time := or_else (estimated_time route) (Str "") |}.

(** One row per (route, stop) pair, in route order then stop order. *)
Definition flattened (rd : routeData) : list row :=
  concat (imap (fun ri route =>
                  imap (fun si stop => row_of (delivery_points rd) ri route si stop)
                       (stops route))
               (default [] (routes rd))).

End Spec.

(** ** What debouncing means *)

Module DebounceSpec.

Import Timers Debounce.

Section Meaning.

Context {A : Type}.

Local Open Scope Z_scope.

(** What debouncing is to do: an invocation arms one call, due one delay
    later, in place of the call that was armed; the armed call is made
    once the event loop is free at or after that time. *)
Fixpoint debounced_calls (timeout : Z) (time : Z) (armed : option (Z * A))
    (trace : list (event A)) : list (Z * A) :=
  match trace with
  | [] => []
  | Invoke args :: trace =>
      debounced_calls timeout time (Some (time + timeout, args)) trace
  | Busy ms :: trace => debounced_calls timeout (time + Z.max 0 ms) armed trace
  | Idle ms :: trace =>
      let limit := time + Z.max 0 ms in
      match armed with
      | Some (due, args) =>
          if due <=? limit
          then (Z.max due time, args) :: debounced_calls timeout limit None trace
          else debounced_calls timeout limit armed trace
      | None => debounced_calls timeout limit None trace
      end
  end.

(** The timers hold the armed call and nothing else. *)
Definition holds (w : debounced A) (time : Z) (armed : option (Z * A)) : Prop :=
  now (window_timers w) = time
  /\ match armed with
     | Some x => exists id, timeoutId w = Some id
                            /\ pending (window_timers w) = {[ id := x ]}
     | None => pending (window_timers w) = ∅
     end.

(** A burst: invocations, each followed by a pause too short for the timer
    to run. *)
Definition burst (pauses : list (A * Z)) : list (event A) :=
  concat ((fun '(args, ms) => [Invoke args; Idle ms]) <$> pauses).

End Meaning.

End DebounceSpec.

(** * Properties *)

(** ** Rounding onto the binary64 grid *)

Module NumberFacts.

Local Open Scope Q_scope.

Lemma pow2_pos e : 0 < pow2 e.
Proof. apply Qpower_0_lt. reflexivity. Qed.

Lemma pow2_add a b : pow2 (a + b) == pow2 a * pow2 b.
Proof. apply Qpower_plus. discriminate. Qed.

Lemma pow2_le a b : (a <= b)%Z -> pow2 a <= pow2 b.
Proof. intros H. apply Qpower_le_compat_l; [exact H | discriminate]. Qed.

Lemma pow2_lt_inv a b : pow2 a < pow2 b -> (a < b)%Z.
Proof. intros H. eapply Qpower_lt_compat_l_inv; [exact H | reflexivity]. Qed.

Lemma pow2_inject n : (0 <= n)%Z -> inject_Z (2 ^ n) == pow2 n.
Proof. intros H. apply (Zpower_Qpower 2 n H). Qed.

Lemma Qdiv_pow2_le a b e : a <= b -> a / pow2 e <= b / pow2 e.
Proof.
  intros H. apply Qmult_le_compat_r; [exact H |].
  apply Qlt_le_weak, Qinv_lt_0_compat, pow2_pos.
Qed.

Lemma Qdiv_pow2_bound q e k :
  q < pow2 (e + k) -> q / pow2 e < pow2 k.
Proof.
  intros H. apply Qlt_shift_div_r; [apply pow2_pos |].
  rewrite <- pow2_add. now replace (k + e)%Z with (e + k)%Z by lia.
Qed.

Lemma Qdiv_pow2_lower q e k :
  pow2 (e + k) <= q -> pow2 k <= q / pow2 e.
Proof.
  intros H. apply Qle_shift_div_l; [apply pow2_pos |].
  rewrite <- pow2_add. now replace (k + e)%Z with (e + k)%Z by lia.
Qed.

Lemma ilog2_spec q : 0 < q -> pow2 (ilog2 q) <= q /\ q < pow2 (ilog2 q + 1).
Proof.
  intros Hq. destruct q as [n d]. unfold ilog2. cbn [Qnum Qden].
  assert (Hn : (0 < n)%Z) by (unfold Qlt in Hq; cbn in Hq; lia).
  set (a := Z.log2 n). set (b := Z.log2 (Z.pos d)).
  destruct (Z.log2_spec n Hn) as [Ha1 Ha2]. fold a in Ha1, Ha2.
  destruct (Z.log2_spec (Z.pos d) eq_refl) as [Hb1 Hb2]. fold b in Hb1, Hb2.
  assert (Ha0 : (0 <= a)%Z) by apply Z.log2_nonneg.
  assert (Hb0 : (0 <= b)%Z) by apply Z.log2_nonneg.
  assert (Hd : 0 < inject_Z (Z.pos d)) by reflexivity.
  assert (E : n # d == inject_Z n / inject_Z (Z.pos d)) by apply Qmake_Qdiv.
  destruct (Qle_bool (pow2 (a - b)) (n # d)) eqn:Hc.
  - apply Qle_bool_iff in Hc. split; [exact Hc |].
    rewrite E. apply Qlt_shift_div_r; [exact Hd |].
    apply Qlt_le_trans with (inject_Z (2 ^ Z.succ a)).
    + rewrite <- Zlt_Qlt. exact Ha2.
    + rewrite pow2_inject by lia.
      replace (Z.succ a) with ((a - b + 1) + b)%Z by lia.
      rewrite pow2_add. apply Qmult_le_l; [apply pow2_pos |].
      rewrite <- pow2_inject by lia. rewrite <- Zle_Qle. exact Hb1.
  - assert (Hc' : n # d < pow2 (a - b)).
    { apply Qnot_le_lt. intros H. apply Qle_bool_iff in H. congruence. }
    split.
    + rewrite E. apply Qle_shift_div_l; [exact Hd |].
      apply Qle_trans with (inject_Z (2 ^ a)).
      * rewrite pow2_inject by lia.
        replace a with ((a - b - 1) + Z.succ b)%Z at 2 by lia.
        rewrite pow2_add. apply Qmult_le_l; [apply pow2_pos |].
        rewrite <- pow2_inject by lia. rewrite <- Zle_Qle. lia.
      * rewrite <- Zle_Qle. exact Ha1.
    + now replace (a - b - 1 + 1)%Z with (a - b)%Z by lia.
Qed.

Lemma ilog2_unique q k : pow2 k <= q -> q < pow2 (k + 1) -> ilog2 q = k.
Proof.
  intros H1 H2.
  assert (Hq : 0 < q) by (eapply Qlt_le_trans; [apply pow2_pos | exact H1]).
  destruct (ilog2_spec q Hq) as [H3 H4].
  assert (ilog2 q < k + 1)%Z
    by (apply pow2_lt_inv; eapply Qle_lt_trans; eassumption).
  assert (k < ilog2 q + 1)%Z
    by (apply pow2_lt_inv; eapply Qle_lt_trans; eassumption).
  lia.
Qed.

Lemma ilog2_mono a b : 0 < a -> a <= b -> (ilog2 a <= ilog2 b)%Z.
Proof.
  intros Ha Hab.
  assert (Hb : 0 < b) by (eapply Qlt_le_trans; eassumption).
  destruct (ilog2_spec a Ha) as [H1 _], (ilog2_spec b Hb) as [_ H2].
  assert (ilog2 a < ilog2 b + 1)%Z; [| lia].
  apply pow2_lt_inv. eapply Qle_lt_trans; [exact H1 |].
  eapply Qle_lt_trans; eassumption.
Qed.

Lemma round_half_even_floor x :
  (Qfloor x <= round_half_even x <= Qfloor x + 1)%Z.
Proof.
  unfold round_half_even.
  destruct (x - inject_Z (Qfloor x) ?= 1 # 2); [destruct (Z.even _) | |]; lia.
Qed.

Lemma round_half_even_mono x y :
  x <= y -> (round_half_even x <= round_half_even y)%Z.
Proof.
  intros Hxy. pose proof (Qfloor_resp_le x y Hxy) as Hf.
  destruct (Z.eq_dec (Qfloor x) (Qfloor y)) as [E | N].
  - unfold round_half_even. rewrite <- E.
    destruct (Qcompare_spec (x - inject_Z (Qfloor x)) (1 # 2)) as [H1 | H1 | H1];
      destruct (Qcompare_spec (y - inject_Z (Qfloor x)) (1 # 2)) as [H2 | H2 | H2];
      try destruct (Z.even (Qfloor x)); try lia; exfalso; lra.
  - pose proof (round_half_even_floor x). pose proof (round_half_even_floor y).
    lia.
Qed.

Lemma round_half_even_ge x n : inject_Z n <= x -> (n <= round_half_even x)%Z.
Proof.
  intros H. pose proof (round_half_even_floor x).
  pose proof (Qfloor_resp_le _ _ H) as Hf. rewrite Qfloor_Z in Hf. lia.
Qed.

Lemma round_half_even_le x n : x <= inject_Z n -> (round_half_even x <= n)%Z.
Proof.
  intros H. pose proof (round_half_even_floor x).
  pose proof (Qfloor_resp_le _ _ H) as Hf. rewrite Qfloor_Z in Hf.
  destruct (Z.eq_dec (Qfloor x) n) as [E | N]; [| lia].
  unfold round_half_even. rewrite E.
  destruct (Qcompare_spec (x - inject_Z n) (1 # 2)) as [H1 | H1 | H1];
    [exfalso; lra | lia | exfalso; lra].
Qed.

Lemma grid_exp_mono a b : 0 < a -> a <= b -> (grid_exp a <= grid_exp b)%Z.
Proof.
  intros Ha Hab. unfold grid_exp. pose proof (ilog2_mono a b Ha Hab). lia.
Qed.

Lemma round_pos_nonneg q : 0 < q -> 0 <= round_pos q.
Proof.
  intros Hq. unfold round_pos. apply Qmult_le_0_compat.
  - change 0 with (inject_Z 0). rewrite <- Zle_Qle.
    apply round_half_even_ge. apply Qle_shift_div_l; [apply pow2_pos |].
    change (inject_Z 0) with 0. rewrite Qmult_0_l. apply Qlt_le_weak, Hq.
  - apply Qlt_le_weak, pow2_pos.
Qed.

(** Rounding is monotone. *)
Lemma round_pos_mono a b : 0 < a -> a <= b -> round_pos a <= round_pos b.
Proof.
  intros Ha Hab. unfold round_pos.
  assert (Hb : 0 < b) by (eapply Qlt_le_trans; eassumption).
  pose proof (grid_exp_mono a b Ha Hab) as He.
  destruct (Z.eq_dec (grid_exp a) (grid_exp b)) as [E | N].
  - rewrite E. apply Qmult_le_compat_r; [| apply Qlt_le_weak, pow2_pos].
    rewrite <- Zle_Qle. apply round_half_even_mono, Qdiv_pow2_le, Hab.
  - set (ea := grid_exp a) in *. set (eb := grid_exp b) in *.
    apply Qle_trans with (pow2 (ea + 53)).
    + rewrite pow2_add, (Qmult_comm (pow2 ea)).
      apply Qmult_le_compat_r; [| apply Qlt_le_weak, pow2_pos].
      rewrite <- (pow2_inject 53) by lia. rewrite <- Zle_Qle.
      apply round_half_even_le. rewrite pow2_inject by lia.
      apply Qlt_le_weak, Qdiv_pow2_bound.
      destruct (ilog2_spec a Ha) as [_ H]. eapply Qlt_le_trans; [exact H |].
      apply pow2_le. unfold ea, grid_exp, prec. lia.
    + apply Qle_trans with (pow2 (eb + 52)); [apply pow2_le; lia |].
      rewrite pow2_add, (Qmult_comm (pow2 eb)).
      apply Qmult_le_compat_r; [| apply Qlt_le_weak, pow2_pos].
      rewrite <- (pow2_inject 52) by lia. rewrite <- Zle_Qle.
      apply round_half_even_ge. rewrite pow2_inject by lia.
      apply Qdiv_pow2_lower.
      destruct (ilog2_spec b Hb) as [H _]. eapply Qle_trans; [| exact H].
      apply pow2_le. unfold eb, ea, grid_exp, prec, emin in *. lia.
Qed.

(** What [rnd] returns on a positive rational. *)
Lemma rnd_pos q :
  0 < q ->
  rnd q = PosInf \/ exists r, rnd q = Fin r /\ r == round_pos q.
Proof.
  intros Hq. unfold rnd. apply Qgt_alt in Hq. rewrite Hq.
  destruct (Qle_bool (pow2 emax) (round_pos q)); [now left | right].
  eexists. split; [reflexivity | apply Qred_correct].
Qed.

Lemma rnd_zero q : q == 0 -> rnd q = Fin 0.
Proof. intros H. unfold rnd. apply Qeq_alt in H. now rewrite H. Qed.

(** [rnd] below a bound that the overflow threshold exceeds. *)
Lemma rnd_pos_le q c :
  0 < q -> q <= c -> round_pos c < pow2 emax ->
  exists r, rnd q = Fin r /\ 0 <= r <= round_pos c.
Proof.
  intros Hq Hc Hmax. pose proof (round_pos_mono q c Hq Hc) as Hm.
  pose proof (round_pos_nonneg q Hq) as H0.
  unfold rnd. apply Qgt_alt in Hq. rewrite Hq.
  destruct (Qle_bool (pow2 emax) (round_pos q)) eqn:E.
  - apply Qle_bool_iff in E. exfalso. lra.
  - eexists. split; [reflexivity |]. rewrite Qred_correct. split; assumption.
Qed.

Lemma rnd_pos_ge q c :
  0 < c -> c <= q ->
  match rnd q with
  | PosInf => True
  | Fin r => round_pos c <= r
  | _ => False
  end.
Proof.
  intros Hc Hq. assert (Hq0 : 0 < q) by lra.
  pose proof (round_pos_mono c q Hc Hq) as Hm.
  destruct (rnd_pos q Hq0) as [-> | (r & -> & Hr)]; [exact I |].
  now rewrite Hr.
Qed.

(** [rnd] agrees with the primitive floats on a few quotients and
    products, a tie at [2^53 + 1] included. *)
Example rnd_agrees_with_floats :
  divide (Fin 1) (Fin 3) = of_float (float_of_Z 1 / float_of_Z 3)
  /\ dec 1 1 = of_float (float_of_Z 1 / float_of_Z 10)
  /\ dec 407128 4 = of_float (float_of_Z 407128 / float_of_Z 10000)
  /\ multiply (dec 1 1) (Fin 3)
     = of_float (float_of_Z 1 / float_of_Z 10 * float_of_Z 3)
  /\ divide (dec 597 1) (Fin 60)
     = of_float (float_of_Z 597 / float_of_Z 10 / float_of_Z 60)
  /\ rnd 9007199254740993 = of_float (float_of_Z 9007199254740993)
  /\ rnd 9007199254740995 = of_float (float_of_Z 9007199254740995).
Proof. repeat split; vm_compute; reflexivity. Qed.

(** A binary64 value is a multiple of the unit of its binade. *)
Lemma is_binary64_grid q :
  is_binary64 q = true -> 0 < q ->
  exists m : Z, q == inject_Z m * pow2 (grid_exp q).
Proof.
  unfold is_binary64. intros H Hq.
  destruct (rnd_pos q Hq) as [E | (r & E & Hr)]; rewrite E in H; [discriminate |].
  apply Qeq_bool_iff in H. exists (round_half_even (q / pow2 (grid_exp q))).
  transitivity r; [symmetry; exact H | exact Hr].
Qed.

(** The binary64 values below 60 stop at [60 - 2^-47]. *)
Lemma binary64_below_60 m :
  is_binary64 m = true -> m < 60 -> m <= 60 - pow2 (-47).
Proof.
  intros Hb Hlt. destruct (Qlt_le_dec m 32) as [H32 | H32].
  - apply Qlt_le_weak. eapply Qlt_le_trans; [exact H32 |]. now vm_compute.
  - assert (Hm : 0 < m) by lra.
    destruct (is_binary64_grid m Hb Hm) as (k & Hk).
    assert (Hl : ilog2 m = 5%Z).
    { apply ilog2_unique.
      - eapply Qle_trans; [| exact H32]. now vm_compute.
      - eapply Qlt_trans; [exact Hlt |]. now vm_compute. }
    unfold grid_exp in Hk. rewrite Hl in Hk.
    change (Z.max (5 - (prec - 1)) emin) with (-47)%Z in Hk.
    assert (Hk' : (k < 60 * 2 ^ 47)%Z).
    { rewrite Zlt_Qlt. apply Qmult_lt_r with (pow2 (-47)); [apply pow2_pos |].
      rewrite <- Hk. eapply Qlt_le_trans; [exact Hlt |]. now vm_compute. }
    rewrite Hk. assert (Hk'' : (k <= 60 * 2 ^ 47 - 1)%Z) by lia.
    rewrite Zle_Qle in Hk''.
    apply Qle_trans with (inject_Z (60 * 2 ^ 47 - 1) * pow2 (-47)).
    + apply Qmult_le_compat_r; [exact Hk'' | apply Qlt_le_weak, pow2_pos].
    + now vm_compute.
Qed.

(** [m / 60] stays below 1 for a binary64 [m] below 60, and reaches 1 from
    60 on: the quotient is rounded, but never across 1. *)
Lemma divide_60_lt m :
  is_binary64 m = true -> 0 <= m -> m < 60 ->
  exists r, divide (Fin m) (Fin 60) = Fin r /\ 0 <= r /\ r < 1.
Proof.
  intros Hb H0 Hlt. change (divide (Fin m) (Fin 60)) with (rnd (m / 60)).
  destruct (Qeq_dec m 0) as [Z | NZ].
  - exists 0. rewrite rnd_zero; [split; [reflexivity | lra] |].
    rewrite Z. reflexivity.
  - pose proof (binary64_below_60 m Hb Hlt) as Hle.
    set (c := (60 - pow2 (-47)) / 60).
    assert (Hq : 0 < m / 60) by (apply Qlt_shift_div_l; lra).
    assert (Hc : m / 60 <= c).
    { unfold c. apply Qmult_le_compat_r; [exact Hle | now vm_compute]. }
    assert (Hr : round_pos c < 1) by now vm_compute.
    destruct (rnd_pos_le (m / 60) c Hq Hc) as (r & -> & Hr1 & Hr2).
    + eapply Qlt_trans; [exact Hr | now vm_compute].
    + exists r. split; [reflexivity | split; lra].
Qed.

Lemma divide_60_ge m :
  60 <= m ->
  match divide (Fin m) (Fin 60) with
  | PosInf => True
  | Fin r => 1 <= r
  | _ => False
  end.
Proof.
  intros Hm. change (divide (Fin m) (Fin 60)) with (rnd (m / 60)).
  assert (H1 : 1 <= m / 60) by (apply Qle_shift_div_l; lra).
  pose proof (rnd_pos_ge (m / 60) 1 ltac:(lra) H1) as H.
  destruct (rnd (m / 60)); try exact H.
  eapply Qle_trans; [| exact H]. now vm_compute.
Qed.

End NumberFacts.

(** ** Strings of digits *)

Module StringFacts.

Import JSNumber JSString.

Local Open Scope Z_scope.
Local Open Scope string_scope.

Lemma string_app_cons x (a b : string) : String x a +:+ b = String x (a +:+ b).
Proof. reflexivity. Qed.

Lemma string_app_nil (b : string) : "" +:+ b = b.
Proof. reflexivity. Qed.

Lemma string_app_assoc (a b c : string) : (a +:+ b) +:+ c = a +:+ (b +:+ c).
Proof.
  induction a as [| x a IH]; [reflexivity |].
  now rewrite !string_app_cons, IH.
Qed.

Lemma string_length_app (a b : string) :
  String.length (a +:+ b) = (String.length a + String.length b)%nat.
Proof.
  induction a as [| x a IH]; [reflexivity |].
  rewrite string_app_cons. cbn. now rewrite IH.
Qed.

Lemma string_take_app (a b : string) : string_take (String.length a) (a +:+ b) = a.
Proof.
  induction a as [| x a IH]; [now destruct b |].
  rewrite string_app_cons. cbn. now rewrite IH.
Qed.

Lemma string_drop_app (a b : string) : string_drop (String.length a) (a +:+ b) = b.
Proof.
  induction a as [| x a IH]; [now destruct b |].
  rewrite string_app_cons. cbn. now rewrite IH.
Qed.

(** *** Decimal digits *)

Lemma log2_div10 n : (10 <= n)%N -> (N.log2 (n / 10) < N.log2 n)%N.
Proof.
  intros H. assert (0 < n / 10)%N by (apply N.div_str_pos; lia).
  apply N.log2_lt_pow2; [assumption |].
  destruct (N.log2_spec n ltac:(lia)) as [_ H2].
  rewrite N.pow_succ_r' in H2.
  apply N.Div0.div_lt_upper_bound. lia.
Qed.

Lemma decimal_go_S f n :
  decimal_go (S f) n =
    if (n <? 10)%N then String (digit_char n) ""
    else decimal_go f (n / 10)%N +:+ String (digit_char (n mod 10)%N) "".
Proof. reflexivity. Qed.

Lemma decimal_go_fuel f1 f2 n :
  (N.to_nat (N.log2 n) < f1)%nat -> (N.to_nat (N.log2 n) < f2)%nat ->
  decimal_go f1 n = decimal_go f2 n.
Proof.
  revert f2 n. induction f1 as [| f1 IH]; intros f2 n H1 H2; [lia |].
  destruct f2 as [| f2]; [lia |]. rewrite !decimal_go_S.
  destruct (N.ltb_spec n 10) as [Hn | Hn]; [reflexivity |].
  pose proof (log2_div10 n Hn). f_equal. apply IH; lia.
Qed.

Lemma decimal_small n : (n < 10)%N -> decimal n = String (digit_char n) "".
Proof.
  intros H. unfold decimal. rewrite decimal_go_S.
  destruct (N.ltb_spec n 10); [reflexivity | lia].
Qed.

Lemma decimal_step n :
  (10 <= n)%N ->
  decimal n = decimal (n / 10) +:+ String (digit_char (n mod 10)) "".
Proof.
  intros H. unfold decimal. rewrite decimal_go_S.
  destruct (N.ltb_spec n 10); [lia |]. f_equal.
  pose proof (log2_div10 n H). apply decimal_go_fuel; lia.
Qed.

(** From 100 on, the last two digits stand for [n mod 100]. *)
Lemma decimal_split2 n :
  (100 <= n)%N ->
  decimal n =
    decimal (n / 100)
    +:+ String (digit_char ((n / 10) mod 10)) (String (digit_char (n mod 10)) "").
Proof.
  intros H. rewrite decimal_step by lia.
  assert (10 <= n / 10)%N by (apply N.div_le_lower_bound; lia).
  rewrite (decimal_step (n / 10)) by assumption.
  rewrite N.Div0.div_div. change (10 * 10)%N with 100%N.
  now rewrite string_app_assoc.
Qed.

Lemma decimal_nonempty n : decimal n <> "".
Proof.
  destruct (N.ltb_spec n 10) as [H | H].
  - now rewrite decimal_small.
  - rewrite decimal_step by assumption. now destruct (decimal (n / 10)).
Qed.

End StringFacts.

(** ** [formatDistance] and [formatTime] *)

Module FormatFacts.

Import JSNumber JSString JSValue Helpers Spec NumberFacts StringFacts.

Local Open Scope Z_scope.
Local Open Scope string_scope.

(** *** [toFixed] *)

Lemma toFixed_0 v :
  (0 <= v)%Q -> (v < inject_Z (10 ^ 21))%Q ->
  toFixed (Fin v) 0 = decimal (Z.to_N (Qfloor (v + (1 # 2)))).
Proof.
  intros H0 H1. unfold toFixed.
  apply Qle_bool_iff in H0. rewrite H0.
  destruct (Qle_bool (inject_Z (10 ^ 21)) v) eqn:E.
  { apply Qle_bool_iff in E. exfalso. lra. }
  rewrite string_app_nil. do 2 f_equal. apply Qfloor_comp.
  change (inject_Z (10 ^ Z.of_nat 0)) with 1%Q. ring.
Qed.

Lemma toFixed_2 d :
  (1 <= d)%Q -> (d < inject_Z (10 ^ 21))%Q ->
  let n := Z.to_N (Qfloor (d * 100 + (1 # 2))) in
  toFixed (Fin d) 2 =
    decimal (n / 100) +:+ "."
    +:+ String (digit_char ((n / 10) mod 10)) (String (digit_char (n mod 10)) "").
Proof.
  intros H0 H1 n. unfold toFixed.
  assert (Hd : (0 <= d)%Q) by lra.
  apply Qle_bool_iff in Hd. rewrite Hd.
  destruct (Qle_bool (inject_Z (10 ^ 21)) d) eqn:E.
  { apply Qle_bool_iff in E. exfalso. lra. }
  change (inject_Z (10 ^ Z.of_nat 2)) with 100%Q. fold n.
  assert (Hn : (100 <= n)%N).
  { unfold n.
    pose proof (Qfloor_resp_le 100 (d * 100 + (1 # 2)) ltac:(lra)) as Hf.
    change (Qfloor 100) with 100%Z in Hf. lia. }
  rewrite string_app_nil, (decimal_split2 n Hn).
  set (a := decimal (n / 100)).
  set (b := String (digit_char ((n / 10) mod 10))
                   (String (digit_char (n mod 10)) "")).
  assert (Hlen : String.length (a +:+ b) = (String.length a + 2)%nat)
    by (rewrite string_length_app; reflexivity).
  assert (Ha : (0 < String.length a)%nat).
  { pose proof (decimal_nonempty (n / 100)) as Hne. fold a in Hne.
    destruct a; [congruence | cbn; lia]. }
  rewrite Hlen.
  destruct (Nat.leb_spec (String.length a + 2) 2) as [Hk | Hk]; [lia |].
  rewrite Hlen.
  replace (String.length a + 2 - 2)%nat with (String.length a) by lia.
  now rewrite string_take_app, string_drop_app.
Qed.

(** Below one kilometre the product [d * 1000] is a Number between 0 and
    1000. *)
Lemma multiply_1000 d :
  (0 <= d)%Q -> (d < 1)%Q ->
  exists v, multiply (Fin d) (Fin 1000) = Fin v /\ (0 <= v)%Q /\ (v <= 1000)%Q.
Proof.
  intros H0 H1. change (multiply (Fin d) (Fin 1000)) with (rnd (d * 1000)).
  destruct (Qeq_dec d 0) as [Z | NZ].
  - exists 0%Q. rewrite rnd_zero; [repeat split; lra | rewrite Z; ring].
  - assert (Hq : (0 < d * 1000)%Q) by lra.
    assert (Hc : (d * 1000 <= 1000)%Q) by lra.
    destruct (rnd_pos_le (d * 1000) 1000 Hq Hc) as (r & -> & Hr1 & Hr2);
      [now vm_compute |].
    exists r. repeat split; [assumption |].
    eapply Qle_trans; [exact Hr2 | now vm_compute].
Qed.

(** C5 (as amended).  For every non-negative distance [d] below [10^21]
    kilometres, [formatDistance d] renders [d < 1] as the whole number of
    metres (the Number [d * 1000], rounded to the nearest integer) followed
    by [" m"], and [d >= 1] with exactly two decimal places followed by
    [" km"]; [formatDistance 0.5] is ["500 m"] and [formatDistance 1.5] is
    ["1.50 km"]. *)
Theorem formatDistance_renders :
  (forall d : Q, (0 <= d)%Q -> (d < inject_Z (10 ^ 21))%Q -> renders_distance d)
  /\ formatDistance (dec 5 1) = "500 m"
  /\ formatDistance (dec 15 1) = "1.50 km".
Proof.
  split; [| split; now vm_compute].
  intros d H0 Hmax. split; intros Hd; unfold formatDistance, lessThan.
  - destruct (Qle_bool 1 d) eqn:E; [apply Qle_bool_iff in E; exfalso; lra |].
    cbn [negb]. destruct (multiply_1000 d H0 Hd) as (v & Hv & Hv0 & Hv1).
    exists v. split; [exact Hv |]. rewrite Hv. f_equal.
    apply toFixed_0; [exact Hv0 |].
    eapply Qle_lt_trans; [exact Hv1 | now vm_compute].
  - apply Qle_bool_iff in Hd. rewrite Hd. cbn [negb].
    apply Qle_bool_iff in Hd. unfold km_two_decimals.
    rewrite (toFixed_2 d Hd Hmax). now rewrite !string_app_assoc.
Qed.

(** The theorem at [d = 1.5]. *)
Lemma formatDistance_renders_witness : renders_distance (3 # 2).
Proof.
  apply (proj1 formatDistance_renders (3 # 2)); now vm_compute.
Defined.

(** C5 as stated, for every non-negative distance, fails at [10^21]
    kilometres: [toFixed] hands a value that large to the general
    number-to-string conversion, and the result has no decimals. *)
Lemma formatDistance_huge :
  formatDistance (Fin (inject_Z (10 ^ 21))) = "1e+21 km"
  /\ ~ renders_distance (inject_Z (10 ^ 21)).
Proof.
  split; [now vm_compute |].
  intros [_ H]. specialize (H ltac:(now vm_compute)).
  unfold km_two_decimals in H. vm_compute in H. discriminate H.
Qed.


Lemma Qtrunc_nonneg q : (0 <= q)%Q -> Qtrunc q = Qfloor q.
Proof. intros H. unfold Qtrunc. apply Qle_bool_iff in H. now rewrite H. Qed.

(** [m % 60], rounded, for [m >= 0]. *)
Lemma round_remainder_60 m :
  (0 <= m)%Q ->
  JSNumber.round (remainder (Fin m) (Fin 60))
  = Fin (inject_Z (leftover_minutes m))
  /\ 0 <= leftover_minutes m <= 60.
Proof.
  intros H0.
  assert (Hq : (0 <= m / 60)%Q) by (apply Qle_shift_div_l; lra).
  pose proof (Qfloor_le (m / 60)) as H1. pose proof (Qlt_floor (m / 60)) as H2.
  rewrite inject_Z_plus in H2. change (inject_Z 1) with 1%Q in H2.
  set (f := Qfloor (m / 60)) in *.
  assert (H3 : (60 * inject_Z f <= m)%Q).
  { assert (E : (m == m / 60 * 60)%Q) by (field; discriminate).
    rewrite E. lra. }
  assert (H4 : (m < 60 * inject_Z f + 60)%Q).
  { assert (E : (m == m / 60 * 60)%Q) by (field; discriminate).
    rewrite E. lra. }
  split.
  - change (remainder (Fin m) (Fin 60))
      with (Fin (Qred (m - 60 * inject_Z (Qtrunc (m / 60))))).
    rewrite (Qtrunc_nonneg _ Hq). unfold JSNumber.round, leftover_minutes.
    do 2 f_equal. apply Qfloor_comp. fold f. now rewrite Qred_correct.
  - unfold leftover_minutes. fold f.
    pose proof (Qfloor_resp_le 0 (m - 60 * inject_Z f + (1 # 2)) ltac:(lra)) as A.
    pose proof (Qfloor_resp_le (m - 60 * inject_Z f + (1 # 2)) (121 # 2)
                  ltac:(lra)) as B.
    change (Qfloor 0) with 0 in A. change (Qfloor (121 # 2)) with 60 in B. lia.
Qed.



End FormatFacts.

(** ** [validateDeliveryData] *)

Module ValidationFacts.

Import JSNumber JSString JSValue Helpers Spec StringFacts.

Local Open Scope nat_scope.


(** *** [forEach] *)

Lemma forEach_from_ext {A St} (f g : St -> A -> nat -> St) i l s :
  (forall s x j, f s x j = g s x j) ->
  forEach_from f i l s = forEach_from g i l s.
Proof.
  intros E. revert i s. induction l as [| x l IH]; intros i s; [reflexivity |].
  cbn. rewrite E. apply IH.
Qed.

(** A [forEach] whose body only pushes visits the items in order and
    leaves what each one pushes, one after the other. *)
Lemma forEach_from_push {A B} (g : nat -> A -> list B) i l s :
  forEach_from (fun s x j => s ++ g j x) i l s
  = s ++ concat (imap (fun j => g (i + j)%nat) l).
Proof.
  revert i s. induction l as [| x l IH]; intros i s; cbn.
  - now rewrite app_nil_r.
  - rewrite IH, <- app_assoc, Nat.add_0_r. do 3 f_equal.
    apply imap_ext. intros j y _. cbn. f_equal. lia.
Qed.

Lemma forEach_push {A B} (g : nat -> A -> list B) l :
  forEach (fun s x j => s ++ g j x) l [] = concat (imap g l).
Proof. unfold forEach. now rewrite forEach_from_push. Qed.

(** *** The body of the loop of [validateDeliveryData] *)

(** The test of the source on one field is [absent_or_empty]. *)
Lemma missing_test item field :
  negb (has item field)
  || strict_equal (get item field) Null
  || strict_equal (get item field) Undefined
  || strict_equal (get item field) (Str "")
  = absent_or_empty item field.
Proof.
  unfold has, get, absent_or_empty.
  destruct (item !! field) as [[| | b | x | s] |] eqn:E; cbn;
    try reflexivity.
  now destruct s.
Qed.

Lemma foldl_push {A B} (c c' : A -> bool) (msg : A -> B) l acc :
  (forall x, c x = c' x) ->
  foldl (fun acc x => if c x then push acc (msg x) else acc) acc l
  = acc ++ (msg <$> filter (fun x => c' x = true) l).
Proof.
  intros Hc. revert acc. induction l as [| x l IH]; intros acc.
  - cbn. now rewrite app_nil_r.
  - cbn [foldl]. rewrite IH, Hc. unfold push. destruct (c' x) eqn:E.
    + rewrite filter_cons_True by assumption.
      rewrite fmap_cons, <- app_assoc. reflexivity.
    + rewrite filter_cons_False by congruence. reflexivity.
Qed.

(** One turn of the loop appends the errors of the record. *)
Lemma validateDeliveryData_nonempty data :
  data <> [] ->
  validateDeliveryData (Array data)
  = Validation (length (collected data) =? 0)%nat (take 10 (collected data)).
Proof.
  intros Hne. destruct data as [| item0 data]; [congruence |].
  unfold validateDeliveryData, forEach, collected.
  set (l := item0 :: data).
  rewrite (forEach_from_ext _ (fun s x j => s ++ item_errors j x)).
  { now rewrite forEach_from_push. }
  intros errs item index. cbv beta.
  rewrite (foldl_push _ (absent_or_empty item) _ _ _ (missing_test item)).
  unfold item_errors, field_errors, lat_errors, lng_errors, out_of_range, push.
  destruct (ToBoolean (get item "lat") && _);
    destruct (ToBoolean (get item "lng") && _);
    rewrite <- ?app_assoc, ?app_nil_r; reflexivity.
Qed.

Lemma take_min {A} (l : list A) k : take k l = take (Nat.min (length l) k) l.
Proof.
  destruct (Nat.le_ge_cases (length l) k) as [H | H].
  - rewrite Nat.min_l by assumption. now rewrite !take_ge by lia.
  - now rewrite Nat.min_r by assumption.
Qed.

(** C1 (as amended).  For every non-empty array of records,
    [validateDeliveryData] returns [isValid = false] exactly when the full,
    untruncated list of collected per-record errors is non-empty, and the
    errors it returns are the first [min n 10] of the [n] collected errors,
    in collection order. *)
Theorem validateDeliveryData_reports_collected data :
  data <> [] -> reports_collected data.
Proof.
  intros Hne. unfold reports_collected.
  rewrite (validateDeliveryData_nonempty data Hne). cbn [isValid errors].
  split; [| apply take_min].
  destruct (collected data); cbn; split; congruence.
Qed.

(** The theorem on an array of one record that lacks four fields. *)
Lemma validateDeliveryData_reports_collected_witness :
  reports_collected [ {[ "id" := Num (Fin 1) ]} ].
Proof.
  apply validateDeliveryData_reports_collected. discriminate.
Defined.

(** C1 as stated, for every array, fails for the empty one: no per-record
    error is collected, yet the result is invalid and lists an error. *)
Lemma validateDeliveryData_empty :
  validateDeliveryData (Array [])
  = Validation false ["Data must be a non-empty array"%string]
  /\ collected [] = []
  /\ ~ reports_collected [].
Proof.
  split; [reflexivity | split; [reflexivity |]].
  intros [H _]. now apply H.
Qed.

Lemma filter_nil_iff {A} (P : A -> Prop) `{!forall x, Decision (P x)} (l : list A) :
  filter P l = [] <-> forall x, x ∈ l -> ~ P x.
Proof.
  split.
  - intros E x Hx HP. exact (filter_nil_not_elem_of P l x E HP Hx).
  - induction l as [| x l IH]; intros E; [reflexivity |].
    rewrite filter_cons_False by (apply E; left). apply IH.
    intros y Hy. apply E. now right.
Qed.

Lemma field_errors_nil index item :
  field_errors index item = [] <-> complete item.
Proof.
  unfold field_errors, complete. split.
  - intros H%fmap_nil_inv field Hf. rewrite filter_nil_iff in H.
    specialize (H field Hf). now destruct (absent_or_empty item field).
  - intros H. rewrite (proj2 (filter_nil_iff _ _)); [reflexivity |].
    intros field Hf. rewrite (H field Hf). discriminate.
Qed.

Lemma lat_errors_nil index item :
  lat_errors index item = []
  <-> out_of_range (get item "lat") (Fin (-90)) (Fin 90) = false.
Proof. unfold lat_errors. destruct (out_of_range _ _ _); split; congruence. Qed.

Lemma lng_errors_nil index item :
  lng_errors index item = []
  <-> out_of_range (get item "lng") (Fin (-180)) (Fin 180) = false.
Proof. unfold lng_errors. destruct (out_of_range _ _ _); split; congruence. Qed.

Lemma item_errors_nil index item :
  item_errors index item = []
  <-> complete item
      /\ out_of_range (get item "lat") (Fin (-90)) (Fin 90) = false
      /\ out_of_range (get item "lng") (Fin (-180)) (Fin 180) = false.
Proof.
  unfold item_errors.
  rewrite !app_nil, field_errors_nil, lat_errors_nil, lng_errors_nil.
  reflexivity.
Qed.

(** The verdict on a single record. *)
Lemma validateDeliveryData_single item :
  validateDeliveryData (Array [item])
  = Validation (length (item_errors 0 item) =? 0)%nat
               (take 10 (item_errors 0 item)).
Proof.
  rewrite validateDeliveryData_nonempty by discriminate.
  unfold collected. cbn [imap concat]. now rewrite app_nil_r.
Qed.

Lemma validateDeliveryData_single_valid item :
  item_errors 0 item = [] ->
  validateDeliveryData (Array [item]) = Validation true [].
Proof. intros H. rewrite validateDeliveryData_single, H. reflexivity. Qed.

(** A falsy coordinate is never out of range: the test is skipped. *)
Lemma out_of_range_falsy v lo hi :
  ToBoolean v = false -> out_of_range v lo hi = false.
Proof. intros H. unfold out_of_range. now rewrite H. Qed.


(** C2 (as amended).  [validateDeliveryData] rejects a record exactly
    when a required field is absent, [null], [undefined] or [''], or a
    coordinate is truthy and out of range; a falsy value of another kind
    ([0], [NaN], [false]) is accepted and its range check is skipped.  In
    particular the record whose [lat] and [lng] are exactly 0, all required
    fields present, is reported valid with no error. *)
Theorem validateDeliveryData_rejection :
  (forall item,
     isValid (validateDeliveryData (Array [item])) = false
     <-> ~ (complete item
            /\ out_of_range (get item "lat") (Fin (-90)) (Fin 90) = false
            /\ out_of_range (get item "lng") (Fin (-180)) (Fin 180) = false))
  /\ (forall item,
        complete item ->
        ToBoolean (get item "lat") = false ->
        ToBoolean (get item "lng") = false ->
        validateDeliveryData (Array [item]) = Validation true [])
  /\ complete null_island
  /\ validateDeliveryData (Array [null_island]) = Validation true [].
Proof.
  split; [| split; [| split]].
  - intros item. rewrite validateDeliveryData_single. cbn [isValid].
    rewrite <- (item_errors_nil 0 item).
    generalize (item_errors 0 item). intros [| e l]; cbn [length Nat.eqb];
      split; intros H; try reflexivity; try discriminate.
    now contradiction H.
  - intros item Hc Hlat Hlng. apply validateDeliveryData_single_valid.
    apply item_errors_nil. auto using out_of_range_falsy.
  - apply field_errors_nil with (index := 0%nat). now vm_compute.
  - now vm_compute.
Qed.

(** The theorem on the record at latitude 0, longitude 0. *)
Lemma validateDeliveryData_rejection_witness :
  validateDeliveryData (Array [null_island]) = Validation true [].
Proof.
  apply (proj1 (proj2 validateDeliveryData_rejection) null_island).
  - apply (proj1 (proj2 (proj2 validateDeliveryData_rejection))).
  - now vm_compute.
  - now vm_compute.
Defined.

(** C2 as stated, a falsy required field is rejected, fails on the record
    at latitude 0, longitude 0: its [lat] is falsy and it is reported
    valid. *)
Lemma validateDeliveryData_null_island :
  ToBoolean (get null_island "lat") = false
  /\ validateDeliveryData (Array [null_island]) = Validation true []
  /\ ~ rejects_falsy null_island.
Proof.
  split; [now vm_compute | split; [now vm_compute |]].
  intros H. specialize (H "lat"%string).
  assert (E : validateDeliveryData (Array [null_island]) = Validation true [])
    by now vm_compute.
  rewrite E in H. cbn [isValid] in H. enough (true = false) by discriminate.
  apply H; [| now vm_compute].
  unfold requiredFields. set_solver.
Qed.




End ValidationFacts.

(** ** [trim] *)

Module TrimFacts.

Import JSNumber JSString.

Local Open Scope nat_scope.


Lemma strip_head_Some p s r : strip_head p s = Some r -> s = p ++ r.
Proof.
  revert s. induction p as [| a p IH]; intros s H; cbn in H.
  - now injection H.
  - destruct s as [| b s]; [discriminate |].
    destruct (Ascii.eqb_spec a b) as [-> | _]; [| discriminate].
    cbn. f_equal. now apply IH.
Qed.

Lemma strip_space_Some ws s r :
  strip_space ws s = Some r -> exists w, w ∈ ws /\ s = w ++ r.
Proof.
  induction ws as [| w ws IH]; cbn; [discriminate |].
  destruct (strip_head w s) as [r' |] eqn:E.
  - intros [= <-]. exists w. split; [left | now apply strip_head_Some].
  - intros H. destruct (IH H) as (w' & Hw & ->). exists w'. split; [now right | reflexivity].
Qed.

Lemma made_of_app ws a b : made_of ws a -> made_of ws b -> made_of ws (a ++ b).
Proof.
  induction 1 as [| w l Hw _ IH]; intros Hb; [exact Hb |].
  rewrite <- app_assoc. apply made_app; auto.
Qed.

Lemma made_of_one ws w : w ∈ ws -> made_of ws w.
Proof.
  intros H. rewrite <- (app_nil_r w). apply made_app; [exact H | constructor].
Qed.

Lemma made_of_rev ws p : made_of (map (@rev ascii) ws) p -> made_of ws (rev p).
Proof.
  induction 1 as [| w l Hw _ IH]; [constructor |].
  rewrite rev_app_distr. apply made_of_app; [exact IH |].
  apply made_of_one. apply list_elem_of_In, in_map_iff in Hw.
  destruct Hw as (w0 & <- & Hw0). rewrite rev_involutive.
  now apply list_elem_of_In.
Qed.

(** What [drop_space] removes is made of the characters of [ws]. *)
Lemma drop_space_made ws fuel s :
  exists p, made_of ws p /\ s = p ++ drop_space ws fuel s.
Proof.
  revert s. induction fuel as [| fuel IH]; intros s; cbn.
  - exists []. split; [constructor | reflexivity].
  - destruct (strip_space ws s) as [r |] eqn:E.
    + destruct (strip_space_Some _ _ _ E) as (w & Hw & ->).
      destruct (IH r) as (p & Hp & Hr). exists (w ++ p). split.
      * now apply made_app.
      * rewrite <- app_assoc. now f_equal.
    + exists []. split; [constructor | reflexivity].
Qed.

(** A white-space character at the head of a text is found and removed;
    it has at least one byte. *)
Lemma strip_space_white w r :
  w ∈ white_space -> strip_space white_space (w ++ r) = Some r /\ w <> [].
Proof.
  unfold white_space. cbn [map]. intros H.
  repeat (apply elem_of_cons in H as [-> | H]; [split; [reflexivity | discriminate] |]).
  now apply elem_of_nil in H.
Qed.

Lemma drop_space_white p fuel :
  made_of white_space p -> length p <= fuel ->
  drop_space white_space fuel p = [].
Proof.
  intros H. revert fuel. induction H as [| w l Hw _ IH]; intros fuel Hf.
  - now destruct fuel.
  - destruct (strip_space_white w l Hw) as [E Hne].
    rewrite length_app in Hf. destruct w; [congruence |]. cbn in Hf.
    destruct fuel as [| fuel]; [lia |]. cbn [drop_space].
    rewrite E. apply IH. lia.
Qed.

Lemma string_of_list_ascii_nil l : string_of_list_ascii l = ""%string -> l = [].
Proof. now destruct l. Qed.

(** [trim] leaves nothing exactly of the texts that hold white space
    only. *)
Lemma trim_empty_iff s : trim s = ""%string <-> whitespace_only s.
Proof.
  unfold trim, trimEnd, trimStart, whitespace_only.
  set (l := list_ascii_of_string s). split.
  - rewrite list_ascii_of_string_of_list_ascii.
    intros H%string_of_list_ascii_nil.
    destruct (drop_space_made white_space (length l) l) as (p & Hp & Hl).
    set (t := drop_space white_space (length l) l) in *.
    destruct (drop_space_made (map (@rev ascii) white_space) (length t) (rev t))
      as (q & Hq & Ht).
    assert (E : drop_space (map (@rev ascii) white_space) (length t) (rev t) = []).
    { rewrite <- (rev_involutive (drop_space _ _ _)). now rewrite H. }
    rewrite E, app_nil_r in Ht.
    rewrite Hl. apply made_of_app; [exact Hp |].
    rewrite <- (rev_involutive t), Ht. now apply made_of_rev.
  - intros H. rewrite (drop_space_white l (length l) H) by lia. reflexivity.
Qed.

End TrimFacts.

(** ** [parseJSON], [getRouteColor], [validateConstraints] *)

Module HelperFacts.

Import JSNumber JSString JSValue JSON Helpers Spec TrimFacts.

Local Open Scope nat_scope.


(** *** [parseJSON] *)

(** C3 (as amended).  [parseJSON] succeeds exactly on the payloads that
    are valid JSON: one that decodes to an array is returned as it is, one
    that decodes to anything else (an object, a bare number, string,
    boolean or [null]) is returned wrapped in a one-element array; only
    invalid syntax, or a file that cannot be read, is rejected. *)
Theorem parseJSON_settles :
  (forall text,
     parseJSON (Loaded text)
     = match JSON.parse text with
       | Some (JArray items) => Resolved items
       | Some data => Resolved [data]
       | None => Rejected "Invalid JSON format"
       end)
  /\ (forall text,
        (exists items, parseJSON (Loaded text) = Resolved items)
        <-> is_Some (JSON.parse text))
  /\ parseJSON ReadError = Rejected "Failed to read file"
  /\ parseJSON (Loaded (json_text "[{'id': 1}, {'id': 2}]"))
     = Resolved [JObject [("id", JNumber (Fin 1))];
                 JObject [("id", JNumber (Fin 2))]]%string
  /\ parseJSON (Loaded (json_text "{'id': 1}"))
     = Resolved [JObject [("id", JNumber (Fin 1))]]%string
  /\ parseJSON (Loaded "true") = Resolved [JBool true]
  /\ parseJSON (Loaded (json_text "{'id': 1")) = Rejected "Invalid JSON format".
Proof.
  split; [| split; [| repeat split; now vm_compute]].
  - intros text. unfold parseJSON. now destruct (JSON.parse text) as [[] |].
  - intros text. unfold parseJSON. destruct (JSON.parse text) as [v |].
    + split; [now eexists | intros _; now eexists].
    + split; [intros [items [=]] | intros [v [=]]].
Qed.

(** C3 as stated, a bare scalar is rejected, fails on a bare number: the
    text [5] is JSON, it decodes to the number 5, and the promise resolves
    with the array that holds it. *)
Lemma parseJSON_bare_number :
  JSON.parse "5" = Some (JNumber (Fin 5))
  /\ parseJSON (Loaded "5") = Resolved [JNumber (Fin 5)]
  /\ ~ accepts_arrays_and_objects_only "5".
Proof.
  split; [now vm_compute | split; [now vm_compute |]].
  unfold accepts_arrays_and_objects_only.
  assert (E : parseJSON (Loaded "5") = Resolved [JNumber (Fin 5)])
    by now vm_compute.
  rewrite E. intros (v & Hv & Ha & _).
  assert (Hp : JSON.parse "5" = Some (JNumber (Fin 5))) by now vm_compute.
  rewrite Hp in Hv. injection Hv as <-. discriminate Ha.
Qed.

(** *** [getRouteColor] *)

(** C7.  [getRouteColor] selects from a fixed palette of 8 distinct
    colors by the route index modulo 8: [getRouteColor i] is
    [getRouteColor (i + 8)] for every [i], two indices with the same
    remainder get the same color, a color is always returned, and the
    colors of routes 0 and 1 differ. *)
Theorem getRouteColor_cycles :
  length colors = 8
  /\ NoDup colors
  /\ (forall i, getRouteColor i = colors !! (i mod 8))
  /\ (forall i, getRouteColor i = getRouteColor (i + 8))
  /\ (forall i j, i mod 8 = j mod 8 -> getRouteColor i = getRouteColor j)
  /\ (forall i, is_Some (getRouteColor i))
  /\ getRouteColor 0 <> getRouteColor 1.
Proof.
  assert (Hmod : forall i, getRouteColor i = colors !! (i mod 8))
    by reflexivity.
  split; [reflexivity |]. split; [| split; [exact Hmod |]].
  { apply (bool_decide_unpack _). now vm_compute. }
  split; [| split; [| split]].
  - intros i. rewrite !Hmod. f_equal.
    replace (i + 8) with (i + 1 * 8) by lia. now rewrite Nat.Div0.mod_add.
  - intros i j H. now rewrite !Hmod, H.
  - intros i. rewrite Hmod. apply lookup_lt_is_Some.
    change (length colors) with 8. apply Nat.mod_upper_bound. lia.
  - discriminate.
Qed.

(** *** [validateConstraints] *)

Lemma keys_empty (errors : gmap string string) :
  (length (elements (dom errors)) =? 0) = true <-> errors = ∅.
Proof.
  rewrite Nat.eqb_eq, length_zero_iff_nil, elements_empty_iff.
  rewrite <- dom_empty_iff_L. set_solver.
Qed.

Lemma keys_nonempty (errors : gmap string string) k e :
  errors !! k = Some e -> (length (elements (dom errors)) =? 0) = false.
Proof.
  intros H. apply not_true_is_false. rewrite keys_empty. intros ->.
  now rewrite lookup_empty in H.
Qed.

(** C8.  [validateConstraints] returns [isValid = false] with an error
    keyed to [maxStopsPerRoute] when that count is 0, and with an error
    keyed to [startLocation] when the start location is empty or holds
    white space only; it returns [isValid = true] with an empty errors
    object when both counts are at least 1 and the start location holds
    more than white space. *)
Theorem validateConstraints_checks :
  (forall c q,
     maxStopsPerRoute c = Num (Fin q) -> (q == 0)%Q ->
     isValid (validateConstraints c) = false
     /\ errors (validateConstraints c) !! "maxStopsPerRoute"
        = Some "Must be at least 1"%string)
  /\ (forall c,
        whitespace_only (startLocation c) ->
        isValid (validateConstraints c) = false
        /\ errors (validateConstraints c) !! "startLocation"
           = Some "Start location is required"%string)
  /\ (forall c p q,
        maxStopsPerRoute c = Num (Fin p) -> (1 <= p)%Q ->
        vehicleCapacity c = Num (Fin q) -> (1 <= q)%Q ->
        ~ whitespace_only (startLocation c) ->
        validateConstraints c = Validation true ∅).
Proof.
  split; [| split].
  - intros c q Hm Hq.
    assert (L : errors (validateConstraints c) !! "maxStopsPerRoute"
                = Some "Must be at least 1"%string).
    { unfold validateConstraints. rewrite Hm. cbn [ToBoolean].
      apply Qeq_bool_iff in Hq. rewrite Hq. cbn [negb orb errors].
      repeat match goal with |- context [if ?b then _ else _] => destruct b end;
        now simplify_map_eq. }
    split; [| exact L]. exact (keys_nonempty _ _ _ L).
  - intros c Hw.
    assert (L : errors (validateConstraints c) !! "startLocation"
                = Some "Start location is required"%string).
    { unfold validateConstraints.
      rewrite (proj2 (trim_empty_iff _) Hw). cbn [String.eqb].
      rewrite orb_true_r. cbn [errors]. now simplify_map_eq. }
    split; [| exact L]. exact (keys_nonempty _ _ _ L).
  - intros c p q Hm Hp Hv Hq Hw. unfold validateConstraints.
    rewrite Hm, Hv. cbn [ToBoolean]. unfold lt. cbn [ToNumber lessThan].
    assert (Ep : Qeq_bool p 0 = false)
      by (apply not_true_is_false; rewrite Qeq_bool_iff; lra).
    assert (Eq : Qeq_bool q 0 = false)
      by (apply not_true_is_false; rewrite Qeq_bool_iff; lra).
    apply Qle_bool_iff in Hp, Hq. rewrite Ep, Eq, Hp, Hq. cbn [negb orb].
    assert (Es : String.eqb (startLocation c) "" = false).
    { apply String.eqb_neq. intros E. apply Hw. rewrite E. constructor. }
    assert (Et : String.eqb (trim (startLocation c)) "" = false).
    { apply String.eqb_neq. intros E. now apply Hw, trim_empty_iff. }
    rewrite Es, Et. cbn [negb orb]. f_equal.
Qed.

(** The theorem on the constraints of the test suite. *)
Lemma validateConstraints_checks_witness :
  validateConstraints (Constraints (Num (Fin 10)) (Num (Fin 100)) "Warehouse")
  = Validation true ∅.
Proof.
  refine (proj2 (proj2 validateConstraints_checks)
            (Constraints (Num (Fin 10)) (Num (Fin 100)) "Warehouse")
            10%Q 100%Q eq_refl _ eq_refl _ _).
  - now vm_compute.
  - now vm_compute.
  - intros H. apply trim_empty_iff in H. vm_compute in H. discriminate H.
Defined.

End HelperFacts.

(** ** [handleExportCSV] *)

Module ExportFacts.

Import JSNumber JSString JSValue Helpers ExportButton Spec ValidationFacts.

Local Open Scope nat_scope.


Lemma concat_singletons {A B} (f : nat -> A -> B) l :
  concat (imap (fun j x => [f j x]) l) = imap f l.
Proof.
  revert f. induction l as [| x l IH]; intros f; [reflexivity |].
  cbn. f_equal. apply IH.
Qed.

(** A loop that pushes one row per item. *)
Lemma forEach_push_one {A B} (f : nat -> A -> B) l acc :
  forEach (fun s x j => push s (f j x)) l acc = acc ++ imap f l.
Proof.
  unfold forEach, push.
  rewrite (forEach_from_push (fun j x => [f j x])). cbn.
  now rewrite concat_singletons.
Qed.

Lemma handleExportCSV_eq rd : handleExportCSV rd = flattened rd.
Proof.
  unfold handleExportCSV, flattened. destruct (routes rd) as [l |]; [| reflexivity].
  cbn [default]. unfold forEach at 1.
  rewrite (forEach_from_ext _
             (fun s route ri =>
                s ++ imap (fun si stop =>
                             row_of (delivery_points rd) ri route si stop)
                          (stops route))).
  - now rewrite forEach_from_push.
  - intros s route ri. apply forEach_push_one.
Qed.

Lemma length_flattened {A B C} (inner : A -> list B) (f : nat -> A -> nat -> B -> C) l :
  length (concat (imap (fun i x => imap (f i x) (inner x)) l))
  = list_sum (map (fun x => length (inner x)) l).
Proof.
  revert f. induction l as [| x l IH]; intros f; [reflexivity |].
  cbn. rewrite length_app, length_imap. f_equal. apply IH.
Qed.

Lemma or_else_truthy v d : ToBoolean v = true -> or_else v d = v.
Proof. intros H. unfold or_else. now rewrite H. Qed.

Lemma or_else_falsy v d : ToBoolean v = false -> or_else v d = d.
Proof. intros H. unfold or_else. now rewrite H. Qed.

(** X12.  The flattening of [handleExportCSV], for every route bundle:
    exactly one row per (route, stop) pair, in route order then stop order.  Each row carries
    the 1-based route index, the 1-based stop sequence number, the stop's
    id and the route's totals, and the customer fields of the first
    delivery point whose id is the stop's; every field goes through
    [|| '']: it is carried when truthy, and a falsy or missing field, or a
    stop with no delivery point, gives the empty string. *)
Theorem handleExportCSV_flattens (rd : routeData) :
  handleExportCSV rd = flattened rd
  /\ length (handleExportCSV rd)
     = list_sum (map (fun route => length (stops route))
                     (default [] (routes rd)))
  /\ (forall ri si route stop,
        routes rd ≫= (.!! ri) = Some route ->
        stops route !! si = Some stop ->
        let r := row_of (delivery_points rd) ri route si stop in
        r ∈ handleExportCSV rd
        /\ route_id r = succ_index ri
        /\ stop_sequence r = succ_index si
        /\ customer_id r = get stop "id"
        /\ route_total_distance r = or_else (total_distance route) (Str "")
        /\ route_estimated_time r = or_else (estimated_time route) (Str "")
        /\ (forall point,
              point_of (delivery_points rd) stop = Some point ->
              customer_name r = or_else (get point "customer_name") (Str "")
              /\ address r = or_else (get point "address") (Str "")
              /\ latitude r = or_else (get point "lat") (Str "")
              /\ longitude r = or_else (get point "lng") (Str "")
              /\ delivery_window r
                 = or_else (get point "delivery_window") (Str ""))
        /\ (point_of (delivery_points rd) stop = None ->
              customer_name r = Str "" /\ address r = Str ""
              /\ latitude r = Str "" /\ longitude r = Str ""
              /\ delivery_window r = Str ""))
  /\ (forall v, ToBoolean v = true -> or_else v (Str "") = v)
  /\ (forall v, ToBoolean v = false -> or_else v (Str "") = Str "").
Proof.
  split; [apply handleExportCSV_eq |].
  split; [| split; [| split; [intros; now apply or_else_truthy
                             | intros; now apply or_else_falsy]]].
  - rewrite handleExportCSV_eq. apply length_flattened.
  - intros ri si route stop Hr Hs r.
    split; [| do 5 (split; [reflexivity |]); split].
    + rewrite handleExportCSV_eq. unfold flattened.
      destruct (routes rd) as [l |]; [| discriminate]. cbn in Hr. cbn [default].
      apply list_elem_of_In, in_concat.
      exists (imap (fun si stop => row_of (delivery_points rd) ri route si stop)
                   (stops route)).
      split; apply list_elem_of_In.
      * exact (elem_of_lookup_imap_2
                 (fun ri route =>
                    imap (fun si stop =>
                            row_of (delivery_points rd) ri route si stop)
                         (stops route)) l route ri Hr).
      * exact (elem_of_lookup_imap_2
                 (fun si stop => row_of (delivery_points rd) ri route si stop)
                 (stops route) stop si Hs).
    + intros point Hp. unfold r, row_of. rewrite Hp. cbn. repeat split.
    + intros Hp. unfold r, row_of. rewrite Hp. cbn. repeat split.
Qed.

(** The flattening on a plan with one route and one stop. *)
Lemma handleExportCSV_flattens_witness :
  {| route_id := Num (Fin 1); stop_sequence := Num (Fin 1);
     customer_id := Num (Fin 1); customer_name := Str "Test";
     address := Str "123 Main St"; latitude := Str ""; longitude := Str "";
     delivery_window := Str "09:00-17:00"; distance_from_previous := Str "";
     route_total_distance := Num (Fin 12);
     route_estimated_time := Num (Fin 30) |}
  ∈ handleExportCSV null_island_plan.
Proof.
  refine (proj1 (proj1 (proj2 (proj2 (handleExportCSV_flattens null_island_plan)))
                   0 0 _ _ eq_refl eq_refl)).
Defined.

(** C9.  The export of a plan whose only delivery point lies at latitude 0
    and longitude 0: one row, with the 1-based indices, the stop's id, the
    name, address and delivery window of the point and the route's totals,
    but with the empty string for latitude and longitude, where the point
    has 0.  [|| ''] takes the coordinate 0, which is falsy, for a missing
    one, so the row does not carry the point's lat and lng as the customer
    fields of the delivery point. *)
Lemma handleExportCSV_null_island :
  handleExportCSV null_island_plan
  = [ {| route_id := Num (Fin 1); stop_sequence := Num (Fin 1);
         customer_id := Num (Fin 1); customer_name := Str "Test";
         address := Str "123 Main St";
         latitude := Str ""; longitude := Str "";
         delivery_window := Str "09:00-17:00";
         distance_from_previous := Str "";
         route_total_distance := Num (Fin 12);
         route_estimated_time := Num (Fin 30) |} ]
  /\ (forall point,
        point_of (delivery_points null_island_plan) {[ "id" := Num (Fin 1) ]}
        = Some point ->
        get point "lat" = Num (Fin 0) /\ get point "lng" = Num (Fin 0))
  /\ ~ carries_customer_fields null_island_plan.
Proof.
  assert (E : handleExportCSV null_island_plan
              = [ {| route_id := Num (Fin 1); stop_sequence := Num (Fin 1);
                     customer_id := Num (Fin 1); customer_name := Str "Test";
                     address := Str "123 Main St";
                     latitude := Str ""; longitude := Str "";
                     delivery_window := Str "09:00-17:00";
                     distance_from_previous := Str "";
                     route_total_distance := Num (Fin 12);
                     route_estimated_time := Num (Fin 30) |} ]).
  { rewrite handleExportCSV_eq. now vm_compute. }
  split; [exact E | split].
  - intros point Hp. vm_compute in Hp. injection Hp as <-. now vm_compute.
  - intros H. specialize (H 0 0 _ _ _ eq_refl eq_refl eq_refl).
    destruct H as (r & Hr & _ & _ & _ & _ & Hlat & _).
    rewrite E in Hr. apply list_elem_of_singleton in Hr. subst r.
    vm_compute in Hlat. discriminate Hlat.
Qed.

End ExportFacts.

(** ** [calculateMapBounds] *)

Module BoundsFacts.

Import JSNumber JSString JSValue Helpers.

Local Open Scope nat_scope.
Local Open Scope string_scope.

(** [x <= y] on Numbers that are not [NaN]: [y < x] is false. *)
Lemma lessThan_irrefl x : lessThan x x = false.
Proof.
  destruct x as [| | | a]; try reflexivity. cbn.
  assert (H : Qle_bool a a = true) by (apply Qle_bool_iff; apply Qle_refl).
  now rewrite H.
Qed.

Lemma lessThan_false_trans x y z :
  y <> NaN ->
  lessThan y x = false -> lessThan z y = false -> lessThan z x = false.
Proof.
  destruct x as [| | | a], y as [| | | b], z as [| | | c]; cbn;
    try congruence; try reflexivity.
  intros _ H1 H2. apply negb_false_iff in H1, H2. apply negb_false_iff.
  apply Qle_bool_iff in H1, H2. apply Qle_bool_iff. eapply Qle_trans; eassumption.
Qed.

Lemma lessThan_asym x y : lessThan x y = true -> lessThan y x = false.
Proof.
  destruct x as [| | | a], y as [| | | b]; cbn; try congruence; try reflexivity.
  intros H. apply negb_true_iff in H. apply negb_false_iff.
  apply Qle_bool_iff. destruct (Qlt_le_dec b a) as [L | L].
  - apply Qlt_le_weak in L. apply Qle_bool_iff in L. congruence.
  - exact L.
Qed.

(** The least Number of a list without [NaN], starting from [lowest]. *)
Lemma min_from_spec coerced : forall lowest,
  lowest <> NaN -> NaN ∉ coerced ->
  let r := Math.min_from lowest coerced in
  r <> NaN
  /\ lessThan lowest r = false
  /\ (forall x, x ∈ coerced -> lessThan x r = false)
  /\ (r = lowest \/ r ∈ coerced).
Proof.
  induction coerced as [| x l IH]; intros lowest Hl Hn; cbn zeta.
  - cbn. split; [assumption |]. split; [apply lessThan_irrefl |].
    split; [| now left]. intros x Hx. now apply elem_of_nil in Hx.
  - assert (Hx : x <> NaN) by (intros ->; apply Hn; left).
    assert (Hn' : NaN ∉ l) by (intros H; apply Hn; now right).
    assert (E : Math.min_from lowest (x :: l)
                = Math.min_from (if lessThan x lowest then x else lowest) l)
      by (destruct x; [congruence | reflexivity ..]).
    rewrite E. clear E.
    set (lo := if lessThan x lowest then x else lowest).
    assert (Hlo : lo <> NaN) by (unfold lo; now destruct (lessThan x lowest)).
    destruct (IH lo Hlo Hn') as (R1 & R2 & R3 & R4).
    assert (A : lessThan lowest lo = false).
    { unfold lo. destruct (lessThan x lowest) eqn:E;
        [now apply lessThan_asym | apply lessThan_irrefl]. }
    assert (B : lessThan x lo = false).
    { unfold lo. destruct (lessThan x lowest) eqn:E;
        [apply lessThan_irrefl | exact E]. }
    split; [exact R1 |]. split; [| split].
    + exact (lessThan_false_trans _ _ _ Hlo R2 A).
    + intros y [-> | Hy]%elem_of_cons; [| now apply R3].
      exact (lessThan_false_trans _ _ _ Hlo R2 B).
    + destruct R4 as [R4 | R4]; [| right; now right].
      rewrite R4. unfold lo. destruct (lessThan x lowest); [right; left | now left].
Qed.

Lemma max_from_spec coerced : forall highest,
  highest <> NaN -> NaN ∉ coerced ->
  let r := Math.max_from highest coerced in
  r <> NaN
  /\ lessThan r highest = false
  /\ (forall x, x ∈ coerced -> lessThan r x = false)
  /\ (r = highest \/ r ∈ coerced).
Proof.
  induction coerced as [| x l IH]; intros highest Hl Hn; cbn zeta.
  - cbn. split; [assumption |]. split; [apply lessThan_irrefl |].
    split; [| now left]. intros x Hx. now apply elem_of_nil in Hx.
  - assert (Hx : x <> NaN) by (intros ->; apply Hn; left).
    assert (Hn' : NaN ∉ l) by (intros H; apply Hn; now right).
    assert (E : Math.max_from highest (x :: l)
                = Math.max_from (if lessThan highest x then x else highest) l)
      by (destruct x; [congruence | reflexivity ..]).
    rewrite E. clear E.
    set (hi := if lessThan highest x then x else highest).
    assert (Hhi : hi <> NaN) by (unfold hi; now destruct (lessThan highest x)).
    destruct (IH hi Hhi Hn') as (R1 & R2 & R3 & R4).
    assert (A : lessThan hi highest = false).
    { unfold hi. destruct (lessThan highest x) eqn:E;
        [now apply lessThan_asym | apply lessThan_irrefl]. }
    assert (B : lessThan hi x = false).
    { unfold hi. destruct (lessThan highest x) eqn:E;
        [apply lessThan_irrefl | exact E]. }
    split; [exact R1 |]. split; [| split].
    + exact (lessThan_false_trans _ _ _ Hhi A R2).
    + intros y [-> | Hy]%elem_of_cons; [| now apply R3].
      exact (lessThan_false_trans _ _ _ Hhi B R2).
    + destruct R4 as [R4 | R4]; [| right; now right].
      rewrite R4. unfold hi. destruct (lessThan highest x); [right; left | now left].
Qed.

(** A [NaN] among the arguments is the result. *)
Lemma min_from_NaN coerced : forall lowest,
  NaN ∈ coerced -> Math.min_from lowest coerced = NaN.
Proof.
  induction coerced as [| x l IH]; intros lowest H; [now apply elem_of_nil in H |].
  apply elem_of_cons in H. destruct x; [reflexivity | ..];
    (destruct H as [H | H]; [discriminate H | apply IH, H]).
Qed.

Lemma max_from_NaN coerced : forall highest,
  NaN ∈ coerced -> Math.max_from highest coerced = NaN.
Proof.
  induction coerced as [| x l IH]; intros highest H; [now apply elem_of_nil in H |].
  apply elem_of_cons in H. destruct x; [reflexivity | ..];
    (destruct H as [H | H]; [discriminate H | apply IH, H]).
Qed.

(** [Math.min] and [Math.max] of a non-empty list of values none of which
    coerces to [NaN]: a bound of all, attained by one. *)
Lemma Math_min_spec values :
  values <> [] -> (forall v, v ∈ values -> ToNumber v <> NaN) ->
  (forall v, v ∈ values -> lessThan (ToNumber v) (Math.min values) = false)
  /\ exists v, v ∈ values /\ ToNumber v = Math.min values.
Proof.
  intros Hne Hn. unfold Math.min.
  assert (Hn' : NaN ∉ ToNumber <$> values).
  { intros (v & E & Hv)%list_elem_of_fmap. now apply (Hn v Hv). }
  destruct (min_from_spec (ToNumber <$> values) PosInf ltac:(discriminate) Hn')
    as (R1 & R2 & R3 & R4).
  split.
  - intros v Hv. apply R3. now apply list_elem_of_fmap_2.
  - destruct R4 as [R4 | R4].
    + destruct values as [| v l]; [congruence |]. exists v. split; [left |].
      specialize (R3 (ToNumber v) ltac:(left)). rewrite R4 in *.
      specialize (Hn v ltac:(left)). now destruct (ToNumber v).
    + apply list_elem_of_fmap in R4 as (v & E & Hv). exists v. now split.
Qed.

Lemma Math_max_spec values :
  values <> [] -> (forall v, v ∈ values -> ToNumber v <> NaN) ->
  (forall v, v ∈ values -> lessThan (Math.max values) (ToNumber v) = false)
  /\ exists v, v ∈ values /\ ToNumber v = Math.max values.
Proof.
  intros Hne Hn. unfold Math.max.
  assert (Hn' : NaN ∉ ToNumber <$> values).
  { intros (v & E & Hv)%list_elem_of_fmap. now apply (Hn v Hv). }
  destruct (max_from_spec (ToNumber <$> values) NegInf ltac:(discriminate) Hn')
    as (R1 & R2 & R3 & R4).
  split.
  - intros v Hv. apply R3. now apply list_elem_of_fmap_2.
  - destruct R4 as [R4 | R4].
    + destruct values as [| v l]; [congruence |]. exists v. split; [left |].
      specialize (R3 (ToNumber v) ltac:(left)). rewrite R4 in *.
      specialize (Hn v ltac:(left)). now destruct (ToNumber v).
    + apply list_elem_of_fmap in R4 as (v & E & Hv). exists v. now split.
Qed.

(** X1.  For a non-empty array of points whose [lat] and [lng] all coerce
    to numbers, the bounds that [calculateMapBounds] returns enclose every
    point: no latitude is below [minLat] or above [maxLat], no longitude
    below [minLng] or above [maxLng]; and each of the four bounds is the
    coordinate of one of the points. *)
Theorem calculateMapBounds_encloses (points : list (gmap string prim)) :
  points <> [] ->
  (forall p, p ∈ points ->
     ToNumber (get p "lat") <> NaN /\ ToNumber (get p "lng") <> NaN) ->
  let '((minLat, minLng), (maxLat, maxLng)) := calculateMapBounds (Some points) in
  (forall p, p ∈ points ->
     lessThan (ToNumber (get p "lat")) minLat = false
     /\ lessThan maxLat (ToNumber (get p "lat")) = false
     /\ lessThan (ToNumber (get p "lng")) minLng = false
     /\ lessThan maxLng (ToNumber (get p "lng")) = false)
  /\ (exists p, p ∈ points /\ ToNumber (get p "lat") = minLat)
  /\ (exists p, p ∈ points /\ ToNumber (get p "lng") = minLng)
  /\ (exists p, p ∈ points /\ ToNumber (get p "lat") = maxLat)
  /\ (exists p, p ∈ points /\ ToNumber (get p "lng") = maxLng).
Proof.
  intros Hne Hn. destruct points as [| p0 l]; [congruence |].
  cbn [calculateMapBounds]. set (points := p0 :: l) in *.
  set (lats := (fun p => get p "lat") <$> points).
  set (lngs := (fun p => get p "lng") <$> points).
  assert (Hlats : lats <> []) by discriminate.
  assert (Hlngs : lngs <> []) by discriminate.
  assert (Nlats : forall v, v ∈ lats -> ToNumber v <> NaN).
  { intros v (p & -> & Hp)%list_elem_of_fmap. apply (Hn p Hp). }
  assert (Nlngs : forall v, v ∈ lngs -> ToNumber v <> NaN).
  { intros v (p & -> & Hp)%list_elem_of_fmap. apply (Hn p Hp). }
  destruct (Math_min_spec lats Hlats Nlats) as [A1 (v1 & (p1 & -> & P1)%list_elem_of_fmap & E1)].
  destruct (Math_min_spec lngs Hlngs Nlngs) as [A2 (v2 & (p2 & -> & P2)%list_elem_of_fmap & E2)].
  destruct (Math_max_spec lats Hlats Nlats) as [A3 (v3 & (p3 & -> & P3)%list_elem_of_fmap & E3)].
  destruct (Math_max_spec lngs Hlngs Nlngs) as [A4 (v4 & (p4 & -> & P4)%list_elem_of_fmap & E4)].
  split; [| split; [| split; [| split]]]; [| eauto ..].
  intros p Hp.
  split; [apply A1 | split; [apply A3 | split; [apply A2 | apply A4]]];
    now apply (list_elem_of_fmap_2 (fun p => get p _)).
Qed.

(** The theorem on New York and Los Angeles, in whole degrees. *)
Lemma calculateMapBounds_encloses_witness :
  calculateMapBounds
    (Some [ {[ "lat" := Num (Fin 40); "lng" := Num (Fin (-74)) ]};
            {[ "lat" := Num (Fin 34); "lng" := Num (Fin (-118)) ]} ])
  = ((Fin 34, Fin (-118)), (Fin 40, Fin (-74)))
  /\ exists p, p ∈ [ ({[ "lat" := Num (Fin 40); "lng" := Num (Fin (-74)) ]} : gmap string prim);
                     {[ "lat" := Num (Fin 34); "lng" := Num (Fin (-118)) ]} ]
               /\ ToNumber (get p "lat") = Fin 34.
Proof.
  split; [now vm_compute |].
  refine (proj1 (proj2
    (calculateMapBounds_encloses
       [ {[ "lat" := Num (Fin 40); "lng" := Num (Fin (-74)) ]};
         {[ "lat" := Num (Fin 34); "lng" := Num (Fin (-118)) ]} ] _ _))).
  - discriminate.
  - intros p Hp. apply elem_of_cons in Hp as [-> | Hp];
      [split; now vm_compute |].
    apply list_elem_of_singleton in Hp as ->. split; now vm_compute.
Defined.

(** X2.  [calculateMapBounds] returns [[0, 0], [0, 0]] when there is no
    array of points or the array is empty; and a single point whose [lat]
    does not coerce to a number (it is missing, or text) makes both
    latitude bounds [NaN], whatever the other points are, and likewise for
    [lng]. *)
Theorem calculateMapBounds_degenerate :
  calculateMapBounds None = ((Fin 0, Fin 0), (Fin 0, Fin 0))
  /\ calculateMapBounds (Some []) = ((Fin 0, Fin 0), (Fin 0, Fin 0))
  /\ forall (points : list (gmap string prim)) p,
       p ∈ points ->
       let '((minLat, minLng), (maxLat, maxLng)) := calculateMapBounds (Some points) in
       (ToNumber (get p "lat") = NaN -> minLat = NaN /\ maxLat = NaN)
       /\ (ToNumber (get p "lng") = NaN -> minLng = NaN /\ maxLng = NaN).
Proof.
  split; [reflexivity | split; [reflexivity |]].
  intros points p Hp. destruct points as [| p0 l]; [now apply elem_of_nil in Hp |].
  cbn [calculateMapBounds]. set (points := p0 :: l) in *.
  split; intros E; unfold Math.min, Math.max;
    (split; [apply min_from_NaN | apply max_from_NaN]);
    rewrite <- E, <- list_fmap_compose;
    exact (list_elem_of_fmap_2 (fun p => ToNumber (get p _)) points p Hp).
Qed.

(** The theorem on a point that has no latitude. *)
Lemma calculateMapBounds_degenerate_witness :
  (calculateMapBounds
     (Some [ {[ "lat" := Num (Fin 40); "lng" := Num (Fin (-74)) ]};
             {[ "lng" := Num (Fin (-118)) ]} ])).1.1 = NaN.
Proof.
  pose proof (proj2 (proj2 calculateMapBounds_degenerate)
                [ {[ "lat" := Num (Fin 40); "lng" := Num (Fin (-74)) ]};
                  {[ "lng" := Num (Fin (-118)) ]} ]
                {[ "lng" := Num (Fin (-118)) ]}
                ltac:(right; left)) as H.
  destruct (calculateMapBounds _) as [[minLat minLng] [maxLat maxLng]].
  exact (proj1 (proj1 H eq_refl)).
Defined.

End BoundsFacts.

(** ** [validateDeliveryData], further *)

Module DeliveryDataFacts.

Import JSNumber JSString JSValue Helpers Spec StringFacts ValidationFacts.

Local Open Scope nat_scope.
Local Open Scope string_scope.


Lemma collected_nil data :
  collected data = [] <-> forall i item, data !! i = Some item -> item_errors i item = [].
Proof.
  unfold collected. split.
  - intros H i item Hi.
    assert (Hin : item_errors i item ∈ imap item_errors data)
      by exact (elem_of_lookup_imap_2 item_errors data item i Hi).
    apply list_elem_of_In in Hin.
    rewrite concat_nil_Forall in H. rewrite List.Forall_forall in H. now apply H.
  - intros H. apply concat_nil_Forall, List.Forall_forall. intros l Hl.
    apply list_elem_of_In, elem_of_lookup_imap_1 in Hl as (i & item & -> & Hi).
    now apply (H i item).
Qed.

(** X4.  An array is reported valid exactly when it is not empty and
    every one of its records has the five required fields present and
    non-empty and no truthy coordinate out of range: one record that fails
    makes the whole array invalid. *)
Theorem validateDeliveryData_valid_iff (data : list (gmap string prim)) :
  isValid (validateDeliveryData (Array data)) = true
  <-> data <> []
      /\ forall item, item ∈ data ->
           complete item
           /\ out_of_range (get item "lat") (Fin (-90)) (Fin 90) = false
           /\ out_of_range (get item "lng") (Fin (-180)) (Fin 180) = false.
Proof.
  destruct data as [| item0 data].
  { cbn. split; [discriminate | intros [H _]; congruence]. }
  rewrite validateDeliveryData_nonempty by discriminate. cbn [isValid].
  rewrite Nat.eqb_eq, length_zero_iff_nil, collected_nil. split.
  - intros H. split; [discriminate |]. intros item Hin.
    apply list_elem_of_lookup in Hin as (i & Hi).
    apply (item_errors_nil i item), (H i item Hi).
  - intros [_ H] i item Hi. apply item_errors_nil, H.
    now apply list_elem_of_lookup_2 with i.
Qed.

(** A coordinate that is missing or empty is falsy: its range is not
    tested. *)
Lemma absent_not_out_of_range item field lo hi :
  absent_or_empty item field = true -> out_of_range (get item field) lo hi = false.
Proof.
  unfold absent_or_empty, get, out_of_range.
  destruct (item !! field) as [[| | b | x | s] |]; cbn; try reflexivity;
    try discriminate.
  destruct s; [reflexivity | discriminate].
Qed.

Lemma item_errors_length index item : length (item_errors index item) <= 5.
Proof.
  unfold item_errors, field_errors, lat_errors, lng_errors, requiredFields.
  rewrite !length_app, length_fmap.
  pose proof (absent_not_out_of_range item "lat" (Fin (-90)) (Fin 90)) as Hlat.
  pose proof (absent_not_out_of_range item "lng" (Fin (-180)) (Fin 180)) as Hlng.
  rewrite !filter_cons, filter_nil.
  destruct (out_of_range (get item "lat") _ _);
    destruct (out_of_range (get item "lng") _ _);
    repeat case_decide; cbn [length]; try lia;
    try (specialize (Hlat ltac:(assumption)); discriminate);
    try (specialize (Hlng ltac:(assumption)); discriminate).
Qed.

Lemma concat_imap_length {A B} (f : nat -> A -> list B) k l :
  (forall i x, length (f i x) <= k) ->
  length (concat (imap f l)) <= k * length l.
Proof.
  revert f. induction l as [| x l IH]; intros f H; cbn; [lia |].
  rewrite length_app. specialize (IH (f ∘ S) (fun i x => H (S i) x)).
  specialize (H 0 x). lia.
Qed.

(** X5.  A record draws at most five errors, since a coordinate that is
    reported missing or empty is not reported out of range as well: for a
    non-empty array of [n] records [validateDeliveryData] lists at most
    [5 * n] errors. *)
Theorem validateDeliveryData_errors_per_record (data : list (gmap string prim)) :
  data <> [] ->
  length (errors (validateDeliveryData (Array data))) <= 5 * length data.
Proof.
  intros Hne. rewrite validateDeliveryData_nonempty by assumption. cbn [errors].
  rewrite length_take. unfold collected.
  pose proof (concat_imap_length item_errors 5 data item_errors_length). lia.
Qed.

(** The theorem on one record without any field. *)
Lemma validateDeliveryData_errors_per_record_witness :
  length (errors (validateDeliveryData (Array [ (∅ : gmap string prim) ]))) <= 5 * 1.
Proof.
  exact (validateDeliveryData_errors_per_record [ ∅ ] ltac:(discriminate)).
Defined.

Lemma elem_of_item_errors e index item :
  e ∈ item_errors index item ->
  exists rest, e = row_label index +:+ ": " +:+ rest.
Proof.
  unfold item_errors, field_errors, lat_errors, lng_errors.
  rewrite !elem_of_app. intros [H | [H | H]].
  - apply list_elem_of_fmap in H as (field & -> & _).
    exists ("Missing or empty field '" +:+ field +:+ "'"). reflexivity.
  - destruct (out_of_range _ _ _); [| now apply elem_of_nil in H].
    apply list_elem_of_singleton in H as ->.
    exists ("Invalid latitude value (" +:+ ToString (get item "lat") +:+ ")").
    reflexivity.
  - destruct (out_of_range _ _ _); [| now apply elem_of_nil in H].
    apply list_elem_of_singleton in H as ->.
    exists ("Invalid longitude value (" +:+ ToString (get item "lng") +:+ ")").
    reflexivity.
Qed.

(** X6.  Every error that [validateDeliveryData] lists for an array of
    records starts with ["Row k: "], where [k] is the 1-based position of
    a record of the array that is indeed at fault (a required field missing
    or empty, or a coordinate out of range); the only other error is the
    one for an empty array. *)
Theorem validateDeliveryData_error_rows (data : list (gmap string prim)) e :
  e ∈ errors (validateDeliveryData (Array data)) ->
  data = [] /\ e = "Data must be a non-empty array"
  \/ exists index item rest,
       data !! index = Some item
       /\ e = "Row " +:+ decimal (N.of_nat (index + 1)) +:+ ": " +:+ rest
       /\ ~ (complete item
             /\ out_of_range (get item "lat") (Fin (-90)) (Fin 90) = false
             /\ out_of_range (get item "lng") (Fin (-180)) (Fin 180) = false).
Proof.
  destruct data as [| item0 data].
  { cbn. intros H%list_elem_of_singleton. now left. }
  rewrite validateDeliveryData_nonempty by discriminate. cbn [errors].
  intros H%subseteq_take. right. unfold collected in H.
  apply list_elem_of_In, in_concat in H as (l & Hl & He).
  apply list_elem_of_In in Hl, He.
  apply elem_of_lookup_imap_1 in Hl as (index & item & -> & Hi).
  destruct (elem_of_item_errors e index item He) as (rest & ->).
  exists index, item, rest. split; [exact Hi | split; [reflexivity |]].
  intros Hok. apply (item_errors_nil index item) in Hok.
  rewrite Hok in He. now apply elem_of_nil in He.
Qed.

(** The theorem on the error for the latitude of a record that has an
    [id] only. *)
Lemma validateDeliveryData_error_rows_witness :
  exists index item rest,
    [ ({[ "id" := Num (Fin 1) ]} : gmap string prim) ] !! index = Some item
    /\ "Row 1: Missing or empty field 'lat'"
       = "Row " +:+ decimal (N.of_nat (index + 1)) +:+ ": " +:+ rest
    /\ ~ (complete item
          /\ out_of_range (get item "lat") (Fin (-90)) (Fin 90) = false
          /\ out_of_range (get item "lng") (Fin (-180)) (Fin 180) = false).
Proof.
  destruct (validateDeliveryData_error_rows
              [ {[ "id" := Num (Fin 1) ]} ]
              "Row 1: Missing or empty field 'lat'") as [[H _] | H].
  - vm_compute. right. left.
  - discriminate H.
  - exact H.
Defined.

End DeliveryDataFacts.

(** ** [formatTime] and [formatDistance] at the edges *)

Module FormatEdges.

Import JSNumber JSString JSValue Helpers Spec NumberFacts StringFacts FormatFacts.

Local Open Scope Z_scope.
Local Open Scope string_scope.

(** The hours of [formatTime]: none below 60 minutes, at least one from 60
    on. *)
Lemma formatTime_branch m :
  is_binary64 m = true -> (0 <= m)%Q ->
  JSNumber.equal (JSNumber.floor (divide (Fin m) (Fin 60))) (Fin 0)
  = negb (Qle_bool 60 m).
Proof.
  intros Hb H0. destruct (Qle_bool 60 m) eqn:E60; cbn [negb].
  - apply Qle_bool_iff in E60. pose proof (divide_60_ge m E60) as Hd.
    destruct (divide (Fin m) (Fin 60)) as [| | | r]; try easy.
    cbn [JSNumber.floor JSNumber.equal]. apply not_true_is_false. intros E.
    apply Qeq_bool_iff in E.
    pose proof (Qfloor_resp_le 1 r Hd) as A. change (Qfloor 1) with 1 in A.
    change 0%Q with (inject_Z 0) in E.
    apply (proj1 (inject_Z_injective _ _)) in E. lia.
  - assert (Hm : (m < 60)%Q).
    { destruct (Qlt_le_dec m 60) as [L | L]; [exact L |].
      apply Qle_bool_iff in L. congruence. }
    destruct (divide_60_lt m Hb H0 Hm) as (r & -> & Hr0 & Hr1).
    cbn [JSNumber.floor JSNumber.equal].
    assert (E : Qfloor r = 0).
    { pose proof (Qfloor_le r). pose proof (Qlt_floor r) as B.
      rewrite inject_Z_plus in B. change (inject_Z 1) with 1%Q in B.
      assert (inject_Z (-1) < inject_Z (Qfloor r))%Q
        by (change (inject_Z (-1)) with (-1)%Q; lra).
      assert (inject_Z (Qfloor r) < inject_Z 1)%Q
        by (change (inject_Z 1) with 1%Q; lra).
      rewrite <- Zlt_Qlt in *. lia. }
    rewrite E. reflexivity.
Qed.

(** X7.  [formatTime] rounds the minutes without carrying them into the
    hours: for a number of minutes [m >= 0] whose part over the whole
    hours is 59.5 or more, the minutes read 60, so that the result is
    ["60 min"] below one hour and ["Nh 60m"] from one hour on;
    [formatTime 59.5] is ["60 min"] and [formatTime 119.5] is
    ["1h 60m"]. *)
Theorem formatTime_sixty_minutes :
  (forall m : Q,
     is_binary64 m = true -> (0 <= m)%Q ->
     (119 # 2 <= m - 60 * inject_Z (Qfloor (m / 60)))%Q ->
     formatTime (Fin m)
     = if Qle_bool 60 m
       then NumberToString (JSNumber.floor (divide (Fin m) (Fin 60))) +:+ "h 60m"
       else "60 min")
  /\ formatTime (dec 595 1) = "60 min"
  /\ formatTime (dec 1195 1) = "1h 60m".
Proof.
  split; [| split; now vm_compute].
  intros m Hb H0 Hlast. destruct (round_remainder_60 m H0) as [Hr HM].
  assert (E : leftover_minutes m = 60).
  { unfold leftover_minutes in *.
    pose proof (Qfloor_resp_le 60 (m - 60 * inject_Z (Qfloor (m / 60)) + (1 # 2))
                  ltac:(lra)) as A.
    change (Qfloor 60) with 60 in A. lia. }
  unfold formatTime. rewrite Hr, E, (formatTime_branch m Hb H0).
  destruct (Qle_bool 60 m); reflexivity.
Qed.

(** The theorem at [m = 59.75]. *)
Lemma formatTime_sixty_minutes_witness : formatTime (Fin (239 # 4)) = "60 min".
Proof.
  exact (proj1 formatTime_sixty_minutes (239 # 4)
           ltac:(now vm_compute) ltac:(now vm_compute) ltac:(now vm_compute)).
Defined.

(** X8.  Just below one kilometre [formatDistance] reads 1000 metres:
    every distance [d] with [0.9995 <= d < 1] is rendered ["1000 m"],
    while [formatDistance 1] is ["1.00 km"]. *)
Theorem formatDistance_1000_m :
  (forall d : Q, (1999 # 2000 <= d)%Q -> (d < 1)%Q ->
     formatDistance (Fin d) = "1000 m")
  /\ formatDistance (dec 9995 4) = "1000 m"
  /\ formatDistance (Fin 1) = "1.00 km".
Proof.
  split; [| split; now vm_compute].
  intros d Hlo Hhi. unfold formatDistance.
  assert (L : lessThan (Fin d) (Fin 1) = true).
  { cbn. apply negb_true_iff, not_true_is_false. intros E.
    apply Qle_bool_iff in E. lra. }
  rewrite L.
  destruct (multiply_1000 d ltac:(lra) Hhi) as (v & Hv & Hv0 & Hv1).
  assert (Hge : (1999 # 2 <= v)%Q).
  { pose proof (rnd_pos_ge (d * 1000) (1999 # 2) ltac:(lra) ltac:(lra)) as G.
    change (multiply (Fin d) (Fin 1000)) with (rnd (d * 1000)) in Hv.
    rewrite Hv in G. eapply Qle_trans; [| exact G]. now vm_compute. }
  rewrite Hv, toFixed_0; [| lra | eapply Qle_lt_trans; [exact Hv1 | now vm_compute]].
  assert (E : Qfloor (v + (1 # 2)) = 1000).
  { pose proof (Qfloor_resp_le 1000 (v + (1 # 2)) ltac:(lra)) as A.
    pose proof (Qfloor_resp_le (v + (1 # 2)) (2001 # 2) ltac:(lra)) as B.
    change (Qfloor 1000) with 1000 in A. change (Qfloor (2001 # 2)) with 1000 in B.
    lia. }
  rewrite E. reflexivity.
Qed.

(** The theorem at [d = 0.99975]. *)
Lemma formatDistance_1000_m_witness : formatDistance (Fin (3999 # 4000)) = "1000 m".
Proof.
  exact (proj1 formatDistance_1000_m (3999 # 4000)
           ltac:(now vm_compute) ltac:(now vm_compute)).
Defined.

End FormatEdges.

(** ** The totals of [ExportButton.jsx] and [RouteTable.jsx] *)

Module TotalsFacts.

Import JSNumber JSString JSValue Helpers ExportButton RouteTable Spec NumberFacts
  ExportFacts.

Local Open Scope Z_scope.

Lemma Qred_inject_Z n : Qred (inject_Z n) = inject_Z n.
Proof.
  unfold Qred, inject_Z. cbn [Qnum Qden].
  pose proof (Z.ggcd_gcd n 1) as G. pose proof (Z.ggcd_correct_divisors n 1) as D.
  destruct (Z.ggcd n 1) as [g [a b]]. cbn [fst snd] in G, D.
  rewrite Z.gcd_1_r in G. subst g. destruct D as [D1 D2].
  rewrite Z.mul_1_l in D1, D2. subst a b. reflexivity.
Qed.

(** The integers below [2^53] are binary64 values. *)
Lemma rnd_inject_Z n :
  0 <= n < 2 ^ 53 -> rnd (inject_Z n) = Fin (inject_Z n).
Proof.
  intros [H0 Hn]. destruct (Z.eq_dec n 0) as [-> | NZ]; [reflexivity |].
  assert (Hq : (0 < inject_Z n)%Q) by (change 0%Q with (inject_Z 0); rewrite <- Zlt_Qlt; lia).
  set (q := inject_Z n) in *.
  destruct (ilog2_spec q Hq) as [L1 L2].
  assert (Hl : ilog2 q < 53).
  { apply pow2_lt_inv. eapply Qle_lt_trans; [exact L1 |].
    rewrite <- (pow2_inject 53) by lia. unfold q. rewrite <- Zlt_Qlt. exact Hn. }
  assert (Hl0 : 0 <= ilog2 q).
  { assert (pow2 0 < pow2 (ilog2 q + 1))%Q.
    { eapply Qle_lt_trans; [| exact L2]. change (pow2 0) with (inject_Z 1).
      unfold q. rewrite <- Zle_Qle. lia. }
    apply pow2_lt_inv in H. lia. }
  set (e := grid_exp q).
  assert (He : e = ilog2 q - 52) by (unfold e, grid_exp, prec, emin; lia).
  assert (Hx : (q / pow2 e == inject_Z (n * 2 ^ (- e)))%Q).
  { rewrite inject_Z_mult, (pow2_inject (- e)) by lia. fold q.
    apply Qmult_inj_r with (pow2 e); [pose proof (pow2_pos e); lra |].
    rewrite <- Qmult_assoc, <- pow2_add. replace (- e + e) with 0 by lia.
    change (pow2 0) with 1%Q. field. pose proof (pow2_pos e). lra. }
  assert (Hr : round_half_even (q / pow2 e) = n * 2 ^ (- e)).
  { apply Z.le_antisymm.
    - apply round_half_even_le. rewrite Hx. apply Qle_refl.
    - apply round_half_even_ge. rewrite Hx. apply Qle_refl. }
  assert (Hp : (round_pos q == q)%Q).
  { unfold round_pos. fold e. rewrite Hr, inject_Z_mult, (pow2_inject (- e)) by lia.
    fold q. rewrite <- Qmult_assoc, <- pow2_add. replace (- e + e) with 0 by lia.
    change (pow2 0) with 1%Q. ring. }
  unfold rnd. apply Qgt_alt in Hq. rewrite Hq.
  destruct (Qle_bool (pow2 emax) (round_pos q)) eqn:E.
  - apply Qle_bool_iff in E. rewrite Hp in E. exfalso.
    assert (q < pow2 53)%Q.
    { rewrite <- (pow2_inject 53) by lia. unfold q. rewrite <- Zlt_Qlt. exact Hn. }
    assert (pow2 53 <= pow2 emax)%Q by (apply pow2_le; unfold emax; lia). lra.
  - f_equal. rewrite (Qred_complete _ _ Hp). apply Qred_inject_Z.
Qed.

Lemma add_of_nat (a b : nat) :
  Z.of_nat (a + b) < 2 ^ 53 -> add (of_nat a) (of_nat b) = of_nat (a + b).
Proof.
  intros H. unfold add, of_nat.
  assert (E : rnd (inject_Z (Z.of_nat a) + inject_Z (Z.of_nat b))
              = rnd (inject_Z (Z.of_nat (a + b)))).
  { unfold rnd. rewrite Nat2Z.inj_add, inject_Z_plus. reflexivity. }
  rewrite E. apply rnd_inject_Z. lia.
Qed.

Lemma or_else_of_nat n : or_else (Num (of_nat n)) (Num (Fin 0)) = Num (of_nat n).
Proof.
  unfold or_else. destruct (ToBoolean (Num (of_nat n))) eqn:E; [reflexivity |].
  destruct n as [| n]; [reflexivity |]. cbn in E. discriminate E.
Qed.

(** Counting the stops route by route. *)
Lemma reduce_stops (l : list route) : forall k : nat,
  Z.of_nat (k + list_sum (map (fun route => length (stops route)) l)) < 2 ^ 53 ->
  reduce (fun acc route => plus acc (Num (of_nat (length (stops route)))))
         (Num (of_nat k)) l
  = Num (of_nat (k + list_sum (map (fun route => length (stops route)) l))).
Proof.
  induction l as [| route l IH]; intros k H; cbn [map reduce foldl] in *.
  - cbn. now rewrite Nat.add_0_r.
  - change (list_sum (length (stops route)
                      :: map (fun route => length (stops route)) l))
      with (length (stops route)
            + list_sum (map (fun route => length (stops route)) l))%nat in *.
    change (plus (Num (of_nat k)) (Num (of_nat (length (stops route)))))
      with (Num (add (of_nat k) (of_nat (length (stops route))))).
    rewrite add_of_nat by lia.
    unfold reduce in IH. rewrite IH by (rewrite <- Nat.add_assoc; exact H).
    now rewrite Nat.add_assoc.
Qed.

Lemma length_handleExportCSV rd :
  length (handleExportCSV rd)
  = list_sum (map (fun route => length (stops route)) (default [] (routes rd))).
Proof. rewrite handleExportCSV_eq. apply length_flattened. Qed.

Lemma metrics_stops_reduce (l : list route) : forall acc,
  metrics_stops
    (foldl (fun acc route =>
              {| metrics_stops :=
                   plus (metrics_stops acc)
                        (Num (of_nat (length (stops route))));
                 metrics_distance :=
                   plus (metrics_distance acc)
                        (or_else (total_distance route) (Num (Fin 0)));
                 metrics_time :=
                   plus (metrics_time acc)
                        (or_else (estimated_time route) (Num (Fin 0))) |}) acc l)
  = foldl (fun acc route => plus acc (Num (of_nat (length (stops route)))))
          (metrics_stops acc) l
  /\ metrics_distance
    (foldl (fun acc route =>
              {| metrics_stops :=
                   plus (metrics_stops acc)
                        (Num (of_nat (length (stops route))));
                 metrics_distance :=
                   plus (metrics_distance acc)
                        (or_else (total_distance route) (Num (Fin 0)));
                 metrics_time :=
                   plus (metrics_time acc)
                        (or_else (estimated_time route) (Num (Fin 0))) |}) acc l)
  = foldl (fun acc route => plus acc (or_else (total_distance route) (Num (Fin 0))))
          (metrics_distance acc) l.
Proof.
  induction l as [| route l IH]; intros acc; [split; reflexivity |].
  cbn [foldl]. destruct (IH
    {| metrics_stops :=
         plus (metrics_stops acc) (Num (of_nat (length (stops route))));
       metrics_distance :=
         plus (metrics_distance acc)
              (or_else (total_distance route) (Num (Fin 0)));
       metrics_time :=
         plus (metrics_time acc)
              (or_else (estimated_time route) (Num (Fin 0))) |}) as [A B].
  split; [exact A | exact B].
Qed.

(** X9.  The three counts of stops agree: the [total_stops] of the summary
    that [handleExportJSON] exports, the [stops] total that the route table
    shows ([getTotalMetrics]) and the number of rows that [handleExportCSV]
    produces are the same number (below [2^53], where the sum of Numbers is
    exact); and [total_routes] is the number of routes, 0 when there is
    none. *)
Theorem total_stops_is_row_count (rd : routeData) :
  Z.of_nat (length (handleExportCSV rd)) < 2 ^ 53 ->
  summary_total_stops (handleExportJSON_summary rd)
  = Num (of_nat (length (handleExportCSV rd)))
  /\ summary_total_routes (handleExportJSON_summary rd)
     = Num (of_nat (length (default [] (routes rd))))
  /\ forall l, routes rd = Some l ->
       metrics_stops (getTotalMetrics l)
       = Num (of_nat (length (handleExportCSV rd))).
Proof.
  intros H. rewrite length_handleExportCSV in *.
  unfold handleExportJSON_summary. cbn [summary_total_stops summary_total_routes].
  destruct (routes rd) as [l |]; cbn [fmap option_fmap option_map default] in *.
  - pose proof (reduce_stops l 0 H) as R. cbn [Nat.add] in R.
    change (Num (of_nat 0)) with (Num (Fin 0)) in R.
    split; [rewrite R; apply or_else_of_nat |].
    split; [apply or_else_of_nat |].
    intros l' [= <-]. unfold getTotalMetrics, reduce.
    rewrite (proj1 (metrics_stops_reduce l _)). exact R.
  - split; [reflexivity | split; [reflexivity | discriminate]].
Qed.

(** The theorem on the plan with one route and one stop. *)
Lemma total_stops_is_row_count_witness :
  summary_total_stops (handleExportJSON_summary null_island_plan)
  = Num (of_nat (length (handleExportCSV null_island_plan))).
Proof.
  exact (proj1 (total_stops_is_row_count null_island_plan ltac:(now vm_compute))).
Defined.

(** X10.  The [total_distance] of the exported summary is the total
    distance of the route table (the same left-to-right sum of
    [route.total_distance || 0]), except that a total that is falsy (0 or
    [NaN]), or routes that are absent, give 0. *)
Theorem total_distance_agrees (rd : routeData) :
  summary_total_distance (handleExportJSON_summary rd)
  = or_else
      (default Undefined
         ((fun l => metrics_distance (getTotalMetrics l))
          <$> routes rd))
      (Num (Fin 0)).
Proof.
  unfold handleExportJSON_summary. cbn [summary_total_distance].
  destruct (routes rd) as [l |]; cbn [fmap option_fmap option_map default];
    [| reflexivity].
  unfold getTotalMetrics, reduce.
  now rewrite (proj2 (metrics_stops_reduce l _)).
Qed.

End TotalsFacts.

(** ** [components/MapView.jsx] *)

Module MapViewFacts.

Import JSNumber JSString JSValue Helpers ExportButton MapView Spec ValidationFacts.

Local Open Scope nat_scope.

Lemma findIndex_from_spec {A} (f : A -> bool) l : forall i : Z,
  (0 <= i)%Z ->
  (findIndex_from f i l = (-1)%Z /\ forall x, x ∈ l -> f x = false)
  \/ exists s x,
       l !! s = Some x /\ f x = true
       /\ (forall s' x', s' < s -> l !! s' = Some x' -> f x' = false)
       /\ findIndex_from f i l = (i + Z.of_nat s)%Z.
Proof.
  induction l as [| y l IH]; intros i Hi.
  - left. split; [reflexivity |]. intros x Hx. now apply elem_of_nil in Hx.
  - cbn [findIndex_from]. destruct (f y) eqn:E.
    + right. exists 0, y. split; [reflexivity |]. split; [exact E |].
      split; [intros; lia | lia].
    + destruct (IH (i + 1)%Z ltac:(lia)) as [[R1 R2] | (s & x & Hs & Hx & Hlt & R)].
      * left. split; [exact R1 |].
        intros x [-> | Hx]%elem_of_cons; [exact E | now apply R2].
      * right. exists (S s), x. split; [exact Hs |]. split; [exact Hx |].
        split; [| lia]. intros [| s'] x' Hs' Hl; cbn in Hl.
        -- now injection Hl as <-.
        -- apply (Hlt s' x'); [lia | exact Hl].
Qed.

Lemma findIndex_none {A} (f : A -> bool) l :
  findIndex f l = (-1)%Z <-> forall x, x ∈ l -> f x = false.
Proof.
  unfold findIndex.
  destruct (findIndex_from_spec f l 0 ltac:(lia)) as [[R1 R2] | (s & x & Hs & Hx & _ & R)].
  - split; [intros _; exact R2 | intros _; exact R1].
  - split; [rewrite R; lia |]. intros H.
    rewrite (H x) in Hx; [discriminate |]. now apply list_elem_of_lookup_2 with s.
Qed.

(** The loop over the routes keeps the last route that has the point. *)
Lemma last_match {A B} (hit : A -> bool) (val : nat -> A -> B) l : forall i st,
  let r := forEach_from (fun st x j => if hit x then val j x else st) i l st in
  (r = st /\ forall x, x ∈ l -> hit x = false)
  \/ exists j x,
       l !! j = Some x /\ hit x = true
       /\ (forall j' x', j < j' -> l !! j' = Some x' -> hit x' = false)
       /\ r = val (i + j) x.
Proof.
  induction l as [| y l IH]; intros i st; cbn zeta.
  - left. split; [reflexivity |]. intros x Hx. now apply elem_of_nil in Hx.
  - cbn [forEach_from].
    destruct (IH (S i) (if hit y then val i y else st))
      as [[R1 R2] | (j & x & Hj & Hx & Hgt & R)].
    + destruct (hit y) eqn:E.
      * right. exists 0, y. split; [reflexivity |]. split; [exact E |].
        split; [| now rewrite R1, Nat.add_0_r].
        intros [| j'] x' Hlt Hl; [lia |]. cbn in Hl. apply R2.
        now apply list_elem_of_lookup_2 with j'.
      * left. split; [exact R1 |].
        intros x [-> | Hx]%elem_of_cons; [exact E | now apply R2].
    + right. exists (S j), x. split; [exact Hj |]. split; [exact Hx |].
      split; [| rewrite R; f_equal; lia].
      intros [| j'] x' Hlt Hl; [lia |]. cbn in Hl. apply (Hgt j' x'); [lia | exact Hl].
Qed.

Lemma grey_is_no_route_color index : getRouteColor index <> Some "#6B7280"%string.
Proof.
  unfold getRouteColor. intros H. apply list_elem_of_lookup_2 in H.
  revert H. unfold colors. rewrite !elem_of_cons, elem_of_nil.
  intros [H | [H | [H | [H | [H | [H | [H | [H | []]]]]]]]]; discriminate H.
Qed.

(** X11.  The marker that [renderMarkers] gives a delivery point: when no
    stop of any route has the point's [id], the marker is grey
    ([#6B7280]) and labelled ["?"]; otherwise it belongs to the last route
    that has such a stop, takes that route's colour, and is labelled with
    the 1-based position of the first such stop in that route.  A marker
    is grey, and labelled ["?"], only in the first case: grey is none of
    the route colours. *)
Theorem renderMarkers_assignment (deliveryPoints : list (gmap string prim))
    (routes : list route) (k : nat) (point : gmap string prim) :
  deliveryPoints !! k = Some point ->
  exists m,
    renderMarkers deliveryPoints routes !! k = Some m
    /\ marker_position m = (get point "lat", get point "lng")
    /\ ((forall route stop, route ∈ routes -> stop ∈ stops route ->
           strict_equal (get stop "id") (get point "id") = false)
        /\ routeIndex m = (-1)%Z
        /\ marker_color m = Some "#6B7280"%string /\ label m = Str "?"
        \/ exists r route s stop,
             routes !! r = Some route /\ stops route !! s = Some stop
             /\ strict_equal (get stop "id") (get point "id") = true
             /\ (forall s' stop', s' < s -> stops route !! s' = Some stop' ->
                   strict_equal (get stop' "id") (get point "id") = false)
             /\ (forall r' route' stop', r < r' -> routes !! r' = Some route' ->
                   stop' ∈ stops route' ->
                   strict_equal (get stop' "id") (get point "id") = false)
             /\ routeIndex m = Z.of_nat r
             /\ marker_color m = getRouteColor r /\ label m = succ_index s)
    /\ (marker_color m = Some "#6B7280"%string <-> routeIndex m = (-1)%Z)
    /\ (label m = Str "?" <-> routeIndex m = (-1)%Z).
Proof.
  intros Hk. unfold renderMarkers. rewrite list_lookup_fmap, Hk.
  cbn [fmap option_fmap option_map]. cbv beta.
  eexists. split; [reflexivity |].
  set (f := fun s : gmap string prim => strict_equal (get s "id") (get point "id")).
  set (hit := fun route : route => negb (findIndex f (stops route) =? -1)%Z).
  set (val := fun (j : nat) (route : route) =>
                (Z.of_nat j, (findIndex f (stops route) + 1)%Z)).
  match goal with
  | |- context [forEach ?body routes ?init] =>
      assert (E : forEach body routes init
                  = forEach_from (fun st x j => if hit x then val j x else st)
                                 0 routes init)
        by (unfold forEach; apply forEach_from_ext; intros [a b] x j; reflexivity)
  end.
  rewrite E. clear E.
  destruct (last_match hit val routes 0 ((-1)%Z, (-1)%Z))
    as [[R1 R2] | (r & route & Hr & Hhit & Hlast & R)]; cbn zeta in *.
  - rewrite R1. cbn. split; [reflexivity |]. split; [| now split]. left.
    split; [| repeat split].
    intros route stop Hroute Hstop. specialize (R2 route Hroute).
    unfold hit in R2. apply negb_false_iff, Z.eqb_eq in R2.
    exact (proj1 (findIndex_none f (stops route)) R2 stop Hstop).
  - rewrite R. unfold val. cbn [Nat.add].
    unfold hit in Hhit. apply negb_true_iff, Z.eqb_neq in Hhit.
    unfold findIndex in *.
    destruct (findIndex_from_spec f (stops route) 0 ltac:(lia))
      as [[F1 _] | (s & stop & Hs & Hf & Hfirst & F)]; [congruence |].
    rewrite F. cbn [marker_position marker_color label routeIndex position].
    assert (L1 : (0 <=? Z.of_nat r)%Z = true) by (apply Z.leb_le; lia).
    assert (L2 : (0 <? 0 + Z.of_nat s + 1)%Z = true) by (apply Z.ltb_lt; lia).
    rewrite L1, L2, Nat2Z.id.
    split; [reflexivity |]. split; [right; exists r, route, s, stop |].
    2: { split; (split; [| lia]); intros H;
           [now apply grey_is_no_route_color in H | discriminate H]. }
    split; [exact Hr |]. split; [exact Hs |]. split; [exact Hf |].
    split; [exact Hfirst |]. split.
    { intros r' route' stop' Hlt Hr' Hstop'.
      specialize (Hlast r' route' Hlt Hr'). unfold hit in Hlast.
      apply negb_false_iff, Z.eqb_eq in Hlast.
      exact (proj1 (findIndex_none f (stops route')) Hlast stop' Hstop'). }
    split; [reflexivity |]. split; [reflexivity |].
    unfold succ_index. do 3 f_equal. lia.
Qed.


(** The theorem on one delivery point that is the only stop of the only
    route. *)
Lemma renderMarkers_assignment_witness :
  exists m,
    renderMarkers [null_island] [ {| stops := [ {[ "id" := Num (Fin 1) ]} ];
                                     total_distance := Num (Fin 12);
                                     estimated_time := Num (Fin 30) |} ] !! 0
    = Some m
    /\ marker_color m = Some "#3B82F6"%string /\ label m = Num (Fin 1).
Proof.
  destruct (renderMarkers_assignment [null_island]
              [ {| stops := [ {[ "id" := Num (Fin 1) ]} ];
                   total_distance := Num (Fin 12);
                   estimated_time := Num (Fin 30) |} ] 0 null_island eq_refl)
    as (m & Hm & _ & _).
  exists m. split; [exact Hm |]. vm_compute in Hm. injection Hm as <-.
  split; reflexivity.
Defined.


(** The loop over the stops of a route leaves the positions of the stops
    that have a delivery point, in order. *)
Lemma forEach_positions (deliveryPoints : list (gmap string prim)) l : forall i acc,
  forEach_from (fun positions stop (_ : nat) =>
     match List.find (fun p => strict_equal (get p "id") (get stop "id"))
                     deliveryPoints with
     | Some point => push positions (position point)
     | None => positions
     end) i l acc
  = acc ++ omap (fun stop => position <$> point_of (Some deliveryPoints) stop) l.
Proof.
  induction l as [| stop l IH]; intros i acc; cbn [forEach_from omap list_omap].
  - now rewrite app_nil_r.
  - rewrite IH. unfold point_of. cbn [mbind option_bind].
    destruct (List.find _ deliveryPoints) as [p |]; cbn [fmap option_fmap option_map].
    + unfold push. now rewrite <- app_assoc.
    + reflexivity.
Qed.

(** X13.  The line that [renderRoutes] draws for a route has the route's
    colour and goes through the positions of the route's stops, in order,
    leaving out the stops that have no delivery point; when the start
    location has a truthy latitude and longitude the line starts and ends
    there, a round trip.  There is one line for each route. *)
Theorem renderRoutes_positions (deliveryPoints : list (gmap string prim))
    (routes : list route) (startLocation : option (gmap string prim))
    (r : nat) (route : route) :
  routes !! r = Some route ->
  let ends :=
    match startLocation with
    | Some s => if ToBoolean (get s "lat") && ToBoolean (get s "lng")
                then [(get s "lat", get s "lng")] else []
    | None => []
    end in
  exists lines line,
    renderRoutes deliveryPoints routes startLocation = Some lines
    /\ length lines = length routes
    /\ lines !! r = Some line
    /\ polyline_color line = getRouteColor r
    /\ positions line
       = ends
         ++ omap (fun stop =>
                    (fun point => (get point "lat", get point "lng"))
                    <$> point_of (Some deliveryPoints) stop) (stops route)
         ++ ends.
Proof.
  intros Hr ends. unfold renderRoutes.
  destruct routes as [| route0 routes']; [discriminate Hr |].
  set (routes := route0 :: routes') in *.
  eexists. eexists. split; [reflexivity |].
  split; [apply length_imap |].
  rewrite list_lookup_imap, Hr. cbn [fmap option_fmap option_map].
  split; [reflexivity |]. split; [reflexivity |].
  cbn [positions]. unfold forEach. rewrite forEach_positions.
  unfold ends, startLocation_given, push, position.
  destruct startLocation as [s |]; [| now rewrite app_nil_r].
  destruct (ToBoolean (get s "lat") && ToBoolean (get s "lng"));
    [| now rewrite app_nil_r].
  now rewrite <- app_assoc.
Qed.

(** The theorem on a route of two stops, the second of which has no
    delivery point. *)
Lemma renderRoutes_positions_witness :
  exists lines line,
    renderRoutes [null_island]
      [ {| stops := [ {[ "id" := Num (Fin 1) ]}; {[ "id" := Num (Fin 2) ]} ];
           total_distance := Num (Fin 12); estimated_time := Num (Fin 30) |} ]
      (Some {[ "lat" := Num (Fin 40); "lng" := Num (Fin (-74)) ]})
    = Some lines
    /\ lines !! 0 = Some line
    /\ positions line
       = [ (Num (Fin 40), Num (Fin (-74))); (Num (Fin 0), Num (Fin 0));
           (Num (Fin 40), Num (Fin (-74))) ].
Proof.
  destruct (renderRoutes_positions [null_island]
      [ {| stops := [ {[ "id" := Num (Fin 1) ]}; {[ "id" := Num (Fin 2) ]} ];
           total_distance := Num (Fin 12); estimated_time := Num (Fin 30) |} ]
      (Some {[ "lat" := Num (Fin 40); "lng" := Num (Fin (-74)) ]}) 0 _ eq_refl)
    as (lines & line & H1 & _ & H2 & _ & H3).
  exists lines, line. split; [exact H1 |]. split; [exact H2 |].
  rewrite H3. now vm_compute.
Defined.

(** X14.  A start location whose latitude or longitude is falsy (0, on
    the equator or the prime meridian, as well as missing) counts as no
    start location: [getAllPoints] leaves it out of the points the map is
    fitted to, and [renderRoutes] draws the lines it draws without a start
    location. *)
Theorem startLocation_falsy (deliveryPoints : list (gmap string prim))
    (routes : list route) (s : gmap string prim) :
  ToBoolean (get s "lat") = false \/ ToBoolean (get s "lng") = false ->
  getAllPoints deliveryPoints (Some s) = deliveryPoints
  /\ renderRoutes deliveryPoints routes (Some s)
     = renderRoutes deliveryPoints routes None.
Proof.
  intros H.
  assert (E : startLocation_given (Some s) = false).
  { unfold startLocation_given. destruct H as [-> | ->];
      [reflexivity | apply andb_false_r]. }
  unfold getAllPoints, renderRoutes. rewrite E. split; reflexivity.
Qed.

(** The theorem on a start location on the equator. *)
Lemma startLocation_falsy_witness :
  getAllPoints [null_island] (Some {[ "lat" := Num (Fin 0); "lng" := Num (Fin 30) ]})
  = [null_island].
Proof.
  exact (proj1 (startLocation_falsy [null_island] []
                  {[ "lat" := Num (Fin 0); "lng" := Num (Fin 30) ]}
                  (or_introl eq_refl))).
Defined.


End MapViewFacts.

(** ** [toggleRoute] of [components/RouteTable.jsx] *)

Module RouteTableFacts.

Import RouteTable.

Local Open Scope nat_scope.

(** X15.  [toggleRoute] changes whether the route it is given is expanded
    and leaves every other route as it was; toggling the same route twice
    gives the set of expanded routes back. *)
Theorem toggleRoute_spec (expandedRoutes : gset nat) (routeIndex : nat) :
  (forall j, j ∈ toggleRoute expandedRoutes routeIndex
             <-> if decide (j = routeIndex) then j ∉ expandedRoutes
                 else j ∈ expandedRoutes)
  /\ toggleRoute (toggleRoute expandedRoutes routeIndex)
                            routeIndex
     = expandedRoutes.
Proof.
  assert (A : forall s i j, j ∈ toggleRoute s i
                            <-> if decide (j = i) then j ∉ s else j ∈ s).
  { intros s i j. unfold toggleRoute.
    destruct (bool_decide_reflect (i ∈ s)) as [Hi | Hi];
      rewrite ?elem_of_difference, ?elem_of_union, elem_of_singleton;
      destruct (decide (j = i)) as [-> | Hj]; tauto. }
  split; [apply A |].
  apply set_eq. intros j. rewrite A.
  destruct (decide (j = routeIndex)) as [-> | N].
  - rewrite A. destruct (decide (routeIndex = routeIndex)); [| congruence].
    split; [apply dec_stable | tauto].
  - rewrite A. destruct (decide (j = routeIndex)); [congruence | reflexivity].
Qed.

End RouteTableFacts.

(** ** [validateConstraints], further *)

Module ConstraintFacts.

Import JSNumber JSString JSValue Helpers Spec TrimFacts HelperFacts.

Local Open Scope nat_scope.

(** The test on the start location fails exactly on white space. *)
Lemma startLocation_test s :
  negb (ToBoolean (Str s)) || String.eqb (trim s) "" = true <-> whitespace_only s.
Proof.
  rewrite orb_true_iff, String.eqb_eq, trim_empty_iff. cbn [ToBoolean].
  rewrite negb_involutive, String.eqb_eq. split; [| now right].
  intros [-> | H]; [constructor | exact H].
Qed.

(** The errors object, key by key. *)
Lemma validateConstraints_errors c :
  errors (validateConstraints c) !! "maxStopsPerRoute"%string
  = (if negb (ToBoolean (maxStopsPerRoute c)) || lt (maxStopsPerRoute c) (Fin 1)
     then Some "Must be at least 1"%string else None)
  /\ errors (validateConstraints c) !! "vehicleCapacity"%string
     = (if negb (ToBoolean (vehicleCapacity c)) || lt (vehicleCapacity c) (Fin 1)
        then Some "Must be at least 1"%string else None)
  /\ errors (validateConstraints c) !! "startLocation"%string
     = (if negb (ToBoolean (Str (startLocation c)))
           || String.eqb (trim (startLocation c)) ""
        then Some "Start location is required"%string else None)
  /\ (forall k, k <> "maxStopsPerRoute"%string -> k <> "vehicleCapacity"%string ->
        k <> "startLocation"%string ->
        errors (validateConstraints c) !! k = None).
Proof.
  unfold validateConstraints. cbn [errors].
  destruct (negb (ToBoolean (maxStopsPerRoute c)) || _),
    (negb (ToBoolean (vehicleCapacity c)) || _),
    (negb (ToBoolean (Str (startLocation c))) || _);
    repeat split; intros; now simplify_map_eq.
Qed.

(** X21.  For any constraints, [validateConstraints] reports
    [isValid = true] exactly when its errors object is empty, and that
    exactly when both counts are truthy and not below 1 and the start
    location holds more than white space; the errors are keyed by those
    three fields only. *)
Theorem validateConstraints_valid_iff (c : constraints) :
  let result := validateConstraints c in
  (isValid result = true <-> errors result = ∅)
  /\ (isValid result = true
      <-> (ToBoolean (maxStopsPerRoute c) = true
           /\ lt (maxStopsPerRoute c) (Fin 1) = false)
          /\ (ToBoolean (vehicleCapacity c) = true
              /\ lt (vehicleCapacity c) (Fin 1) = false)
          /\ ~ whitespace_only (startLocation c))
  /\ (forall k, is_Some (errors result !! k) ->
        k = "maxStopsPerRoute"%string \/ k = "vehicleCapacity"%string
        \/ k = "startLocation"%string).
Proof.
  cbn zeta. destruct (validateConstraints_errors c) as (E1 & E2 & E3 & E4).
  assert (V : isValid (validateConstraints c) = true
              <-> errors (validateConstraints c) = ∅) by apply keys_empty.
  split; [exact V |]. split.
  - rewrite V, <- (startLocation_test (startLocation c)). split.
    + intros E. rewrite E, lookup_empty in E1, E2, E3.
      destruct (ToBoolean (maxStopsPerRoute c)), (lt (maxStopsPerRoute c) (Fin 1)),
        (ToBoolean (vehicleCapacity c)), (lt (vehicleCapacity c) (Fin 1));
        try discriminate.
      repeat split. intros W. rewrite W in E3. discriminate E3.
    + intros [[A1 A2] [[B1 B2] W]]. apply not_true_is_false in W.
      rewrite A1, A2 in E1. rewrite B1, B2 in E2. rewrite W in E3.
      apply map_eq. intros k. rewrite lookup_empty.
      destruct (decide (k = "maxStopsPerRoute"%string)) as [-> | N1]; [exact E1 |].
      destruct (decide (k = "vehicleCapacity"%string)) as [-> | N2]; [exact E2 |].
      destruct (decide (k = "startLocation"%string)) as [-> | N3]; [exact E3 |].
      now apply E4.
  - intros k [e Hk].
    destruct (decide (k = "maxStopsPerRoute"%string)) as [-> | N1]; [now left |].
    destruct (decide (k = "vehicleCapacity"%string)) as [-> | N2]; [right; now left |].
    destruct (decide (k = "startLocation"%string)) as [-> | N3]; [right; now right |].
    rewrite (E4 k N1 N2 N3) in Hk. discriminate Hk.
Qed.

End ConstraintFacts.

(** ** [components/ConstraintsForm.jsx] *)

Module ConstraintsFormFacts.

Import JSNumber JSString JSValue Helpers ConstraintsForm Spec NumberFacts StringFacts
  TrimFacts HelperFacts TotalsFacts ConstraintFacts.

Local Open Scope nat_scope.

(** A count that [parseInt(value) || ''] leaves passes the check exactly
    when the integer read is at least 1. *)
Lemma count_check value :
  let stored := or_else (Num (parseInt value)) (Str "") in
  negb (ToBoolean stored) || lt stored (Fin 1)
  = negb (match parseInt value with
          | NaN => false
          | x => negb (lessThan x (Fin 1))
          end).
Proof.
  cbn zeta. unfold or_else, lt.
  destruct (parseInt value) as [| | | q]; cbn; try reflexivity.
  destruct (Qeq_bool q 0) eqn:E; cbn; rewrite ?E; cbn.
  - apply Qeq_bool_iff in E.
    assert (L : Qle_bool 1 q = false).
    { apply not_true_is_false. rewrite Qle_bool_iff. lra. }
    rewrite ?L. reflexivity.
  - now rewrite negb_involutive.
Qed.

(** X16.  [handleChange] on a count field ([maxStopsPerRoute] or
    [vehicleCapacity]) stores [parseInt(value)], or [''] when that is [NaN]
    or 0, and notifies the parent of the new constraints; the stored count
    passes [validateConstraints] exactly when the integer that [parseInt]
    reads from the text is at least 1.  The errors on display are
    validated again only if the field had been blurred before; otherwise
    they stay as they were. *)
Theorem handleChange_count (st : state) (value : string) :
  let st' := (handleChange MaxStopsPerRoute value st).1 in
  let st'' := (handleChange VehicleCapacity value st).1 in
  let at_least_1 :=
    match parseInt value with
    | NaN => false
    | x => negb (lessThan x (Fin 1))
    end in
  (handleChange MaxStopsPerRoute value st).2 = constraints st'
  /\ field_maxStopsPerRoute (constraints st')
     = (if ToBoolean (Num (parseInt value)) then Num (parseInt value) else Str "")
  /\ field_vehicleCapacity (constraints st'')
     = (if ToBoolean (Num (parseInt value)) then Num (parseInt value) else Str "")
  /\ (Helpers.errors (validateConstraints (validated (constraints st')))
        !! "maxStopsPerRoute"%string = None <-> at_least_1 = true)
  /\ (Helpers.errors (validateConstraints (validated (constraints st'')))
        !! "vehicleCapacity"%string = None <-> at_least_1 = true)
  /\ (touched st MaxStopsPerRoute = true ->
        errors st' = Helpers.errors (validateConstraints (validated (constraints st'))))
  /\ (touched st MaxStopsPerRoute = false -> errors st' = errors st).
Proof.
  cbn zeta. cbn [handleChange fst snd constraints errors update
                 field_maxStopsPerRoute field_vehicleCapacity].
  split; [reflexivity |]. split; [reflexivity |]. split; [reflexivity |].
  split; [| split; [| split]].
  - rewrite (proj1 (validateConstraints_errors _)).
    cbn [validated maxStopsPerRoute field_maxStopsPerRoute].
    rewrite (count_check value).
    destruct (match parseInt value with NaN => false | _ => _ end);
      cbn; split; congruence.
  - rewrite (proj1 (proj2 (validateConstraints_errors _))).
    cbn [validated vehicleCapacity field_vehicleCapacity].
    rewrite (count_check value).
    destruct (match parseInt value with NaN => false | _ => _ end);
      cbn; split; congruence.
  - intros ->. reflexivity.
  - intros ->. reflexivity.
Qed.

(** The theorem on the first change of an untouched field. *)
Lemma handleChange_count_witness :
  errors (handleChange MaxStopsPerRoute "0" initial_state).1 = ∅.
Proof.
  exact (proj2 (proj2 (proj2 (proj2 (proj2 (proj2
           (handleChange_count initial_state "0")))))) eq_refl).
Defined.

Local Open Scope N_scope.

Lemma small_cases d :
  d < 10 -> d = 0 \/ d = 1 \/ d = 2 \/ d = 3 \/ d = 4 \/ d = 5 \/ d = 6 \/ d = 7
            \/ d = 8 \/ d = 9.
Proof. lia. Qed.

Lemma digit_of_digit_char d : d < 10 -> digit_of 10 (digit_char d) = Some d.
Proof.
  intros H. destruct (small_cases d H) as [-> | [-> | [-> | [-> | [-> | [-> | [-> | [-> | [-> | ->]]]]]]]]];
    reflexivity.
Qed.

(** Reading back the digits that [decimal] writes. *)
Lemma read_digits_decimal n : forall rest acc len,
  read_digits 10 (decimal n +:+ rest) acc len
  = read_digits 10 rest (acc * 10 ^ N.of_nat (String.length (decimal n)) + n)
                (len + String.length (decimal n))%nat.
Proof.
  induction n as [n IH] using (well_founded_induction N.lt_wf_0).
  intros rest acc len. destruct (N.ltb_spec n 10) as [Hn | Hn].
  - rewrite (decimal_small n Hn), string_app_cons, string_app_nil.
    cbn [read_digits String.length]. rewrite (digit_of_digit_char n Hn).
    rewrite Nat.add_1_r. reflexivity.
  - rewrite (decimal_step n Hn), string_app_assoc, string_app_cons, string_app_nil.
    assert (Hlt : n / 10 < n) by (apply N.div_lt; lia).
    rewrite (IH (n / 10) Hlt). cbn [read_digits].
    rewrite (digit_of_digit_char (n mod 10)) by (apply N.mod_lt; lia).
    rewrite string_length_app. cbn [String.length].
    set (k := String.length (decimal (n / 10))).
    replace (len + (k + 1))%nat with (S (len + k)) by lia.
    f_equal. rewrite Nat2N.inj_add, N.pow_add_r. change (N.of_nat 1) with 1.
    rewrite N.pow_1_r. pose proof (N.div_mod n 10 ltac:(lia)). lia.
Qed.

(** A positive integer is written with a leading digit from 1 to 9. *)
Lemma decimal_head n :
  1 <= n -> exists d r, 1 <= d < 10 /\ decimal n = String (digit_char d) r.
Proof.
  induction n as [n IH] using (well_founded_induction N.lt_wf_0).
  intros H1. destruct (N.ltb_spec n 10) as [Hn | Hn].
  - exists n, ""%string. split; [lia | now apply decimal_small].
  - assert (Hlt : n / 10 < n) by (apply N.div_lt; lia).
    assert (H10 : 1 <= n / 10) by (apply N.div_le_lower_bound; lia).
    destruct (IH (n / 10) Hlt H10) as (d & r & Hd & E).
    exists d, (r +:+ String (digit_char (n mod 10)) ""). split; [exact Hd |].
    now rewrite (decimal_step n Hn), E, string_app_cons.
Qed.

Lemma trimStart_digit d r :
  d < 10 -> trimStart (String (digit_char d) r) = String (digit_char d) r.
Proof.
  intros H. unfold trimStart. cbn [list_ascii_of_string length drop_space].
  assert (E : strip_space white_space (digit_char d :: list_ascii_of_string r) = None).
  { destruct (small_cases d H) as [-> | [-> | [-> | [-> | [-> | [-> | [-> | [-> | [-> | ->]]]]]]]]];
      reflexivity. }
  rewrite E. cbn [string_of_list_ascii]. now rewrite string_of_list_ascii_of_string.
Qed.

(** [parseInt] reads a positive integer back, whatever follows its
    digits. *)
Lemma parseInt_decimal n rest :
  1 <= n ->
  match rest with
  | String c _ => digit_of 10 c = None
  | EmptyString => True
  end ->
  parseInt (decimal n +:+ rest) = rnd (inject_Z (Z.of_N n)).
Proof.
  intros H1 Hrest. destruct (decimal_head n H1) as (d & r & Hd & E).
  assert (Hlen : (0 < String.length (decimal n))%nat) by (rewrite E; cbn; lia).
  unfold parseInt. rewrite E, string_app_cons.
  rewrite (trimStart_digit d (r +:+ rest)) by lia.
  assert (Hdig : read_digits 10 (String (digit_char d) (r +:+ rest)) 0 0
                 = (n, String.length (decimal n), rest)).
  { rewrite <- string_app_cons, <- E, read_digits_decimal.
    rewrite N.mul_0_l, N.add_0_l, Nat.add_0_l.
    destruct rest as [| c rest']; [reflexivity |].
    cbn [read_digits]. now rewrite Hrest. }
  assert (Hd' : d = 1 \/ d = 2 \/ d = 3 \/ d = 4 \/ d = 5 \/ d = 6 \/ d = 7
                \/ d = 8 \/ d = 9) by lia.
  destruct Hd' as [-> | [-> | [-> | [-> | [-> | [-> | [-> | [-> | ->]]]]]]]];
    cbn [digit_char]; cbn [digit_char] in Hdig; rewrite Hdig;
    (destruct (String.length (decimal n)); [lia | reflexivity]).
Qed.

(** What [parseInt] reads of a positive integer is at least 1. *)
Lemma rnd_at_least_1 n :
  1 <= n ->
  match rnd (inject_Z (Z.of_N n)) with
  | NaN => false
  | x => negb (lessThan x (Fin 1))
  end = true.
Proof.
  intros H1.
  assert (Hq : (1 <= inject_Z (Z.of_N n))%Q).
  { change 1%Q with (inject_Z 1). rewrite <- Zle_Qle. lia. }
  pose proof (rnd_pos_ge (inject_Z (Z.of_N n)) 1 ltac:(lra) Hq) as G.
  destruct (rnd (inject_Z (Z.of_N n))) as [| | | r]; try easy.
  assert (E : (round_pos 1 == 1)%Q) by now vm_compute.
  rewrite E in G. cbn. apply Qle_bool_iff in G. now rewrite G.
Qed.

(** X17.  Typing the decimal digits of an integer [n >= 1] into the
    [maxStopsPerRoute] field, with or without text after the digits (as in
    ["12.7"]), stores [n] (rounded to a Number, and [n] itself below
    [2^53]) and leaves the field without an error; typing ["0"] empties
    the field. *)
Theorem handleChange_typed_integer (st : state) (n : N) (rest : string) :
  1 <= n ->
  match rest with
  | String c _ => digit_of 10 c = None
  | EmptyString => True
  end ->
  let st' := (handleChange MaxStopsPerRoute (decimal n +:+ rest) st).1 in
  field_maxStopsPerRoute (constraints st') = Num (rnd (inject_Z (Z.of_N n)))
  /\ ((Z.of_N n < 2 ^ 53)%Z ->
        field_maxStopsPerRoute (constraints st') = Num (Fin (inject_Z (Z.of_N n))))
  /\ Helpers.errors (validateConstraints (validated (constraints st')))
       !! "maxStopsPerRoute"%string = None
  /\ field_maxStopsPerRoute
       (constraints (handleChange MaxStopsPerRoute "0" st).1) = Str "".
Proof.
  intros H1 Hrest. cbn zeta.
  cbn [handleChange fst constraints update field_maxStopsPerRoute].
  rewrite (parseInt_decimal n rest H1 Hrest).
  pose proof (rnd_at_least_1 n H1) as G.
  assert (T : ToBoolean (Num (rnd (inject_Z (Z.of_N n)))) = true).
  { destruct (rnd (inject_Z (Z.of_N n))) as [| | | r]; try easy.
    cbn in G |- *. apply negb_true_iff, negb_false_iff, Qle_bool_iff in G.
    apply negb_true_iff, not_true_is_false. rewrite Qeq_bool_iff. lra. }
  split; [unfold or_else; now rewrite T |].
  split; [intros Hn; unfold or_else; rewrite T; now rewrite rnd_inject_Z by lia |].
  split; [| reflexivity].
  rewrite (proj1 (validateConstraints_errors _)).
  cbn [validated maxStopsPerRoute field_maxStopsPerRoute].
  unfold or_else at 1 2. rewrite T. unfold lt. cbn [ToNumber negb orb].
  destruct (rnd (inject_Z (Z.of_N n))) as [| | | r]; try easy.
  cbn in G, T |- *. apply negb_true_iff in G. now rewrite G, T.
Qed.

(** The theorem on the text ["12.7"]. *)
Lemma handleChange_typed_integer_witness :
  field_maxStopsPerRoute
    (constraints (handleChange MaxStopsPerRoute "12.7" initial_state).1)
  = Num (Fin 12).
Proof.
  exact (proj1 (proj2 (handleChange_typed_integer initial_state 12 ".7"
                         ltac:(lia) eq_refl))
           ltac:(now vm_compute)).
Defined.

End ConstraintsFormFacts.

(** ** [components/FileUpload.jsx] *)

Module FileUploadFacts.

Import Helpers FileUpload.

(** X18.  [handleFile] turns a file away exactly when neither its type
    nor its extension is a valid one; a file that is let in is always
    parsed by one of the two parsers (the case in which [data] stays
    unassigned cannot arise), the CSV one whenever the extension or the
    type says CSV, even if the other says JSON. *)
Theorem handleFile_parser_total (file_type fileExtension : string) :
  match handleFile_parser file_type fileExtension with
  | Rejected message =>
      message = "Invalid file type. Please upload a CSV or JSON file."%string
      /\ (file_type ∉ validTypes) /\ (fileExtension ∉ validExtensions)
  | Resolved chosen =>
      (file_type ∈ validTypes \/ fileExtension ∈ validExtensions)
      /\ chosen
         = Some (if bool_decide (fileExtension = ".csv"%string
                                 \/ file_type = "text/csv"%string
                                 \/ file_type = "application/vnd.ms-excel"%string)
                 then ParseCSV else ParseJSON)
  end.
Proof.
  assert (A : file_type ∈ validTypes
              <-> file_type = "text/csv"%string
                  \/ file_type = "application/json"%string
                  \/ file_type = "application/vnd.ms-excel"%string).
  { unfold validTypes. rewrite !elem_of_cons, elem_of_nil. tauto. }
  assert (B : fileExtension ∈ validExtensions
              <-> fileExtension = ".csv"%string \/ fileExtension = ".json"%string).
  { unfold validExtensions. rewrite !elem_of_cons, elem_of_nil. tauto. }
  unfold handleFile_parser, includes, validTypes, validExtensions in *.
  cbn [existsb].
  destruct (String.eqb_spec file_type "text/csv") as [E1 | N1];
    destruct (String.eqb_spec file_type "application/json") as [E2 | N2];
    destruct (String.eqb_spec file_type "application/vnd.ms-excel") as [E3 | N3];
    destruct (String.eqb_spec fileExtension ".csv") as [E4 | N4];
    destruct (String.eqb_spec fileExtension ".json") as [E5 | N5];
    cbn [negb andb orb]; rewrite A, B;
    first [ split; [reflexivity | tauto]
          | split; [tauto |]; f_equal;
            first [ rewrite bool_decide_eq_true_2 by tauto; reflexivity
                  | rewrite bool_decide_eq_false_2 by tauto; reflexivity ] ].
Qed.

End FileUploadFacts.

(** ** [debounce] *)

Module DebounceFacts.

Import Timers Debounce DebounceSpec.

Section Calls.

Context {A : Type}.

Local Open Scope Z_scope.

Lemma earliest_singleton (id : nat) (x : Z * A) :
  earliest ({[ id := x ]} : gmap nat (Z * A)) = Some (id, x).
Proof. unfold earliest. now rewrite map_to_list_singleton. Qed.

Lemma timeout_of_nonneg delay : 0 <= timeout_of delay.
Proof. unfold timeout_of. lia. Qed.

Lemma holds_debounce delay args (w : debounced A) time armed :
  holds w time armed ->
  holds (debounce delay args w) time
        (Some (time + timeout_of (default 300 delay), args))
  /\ calls (debounce delay args w) = calls w.
Proof.
  intros [Hnow Hp]. unfold debounce. split; [| reflexivity].
  assert (E : pending (clearTimeout (timeoutId w) (window_timers w)) = ∅
              /\ now (clearTimeout (timeoutId w) (window_timers w)) = time).
  { destruct armed as [x |].
    - destruct Hp as (id & -> & Hp). cbn. rewrite Hp. split; [apply delete_singleton_eq | exact Hnow].
    - destruct (timeoutId w) as [id |]; cbn.
      + rewrite Hp. split; [apply delete_empty | exact Hnow].
      + split; [exact Hp | exact Hnow]. }
  destruct E as [E1 E2]. unfold holds, setTimeout. cbn.
  split; [exact E2 |]. eexists. split; [reflexivity |].
  rewrite E1, E2. apply insert_empty.
Qed.

Lemma holds_idle ms (w : debounced A) time armed :
  holds w time armed ->
  let limit := time + Z.max 0 ms in
  let '(t, ran) := idle ms (window_timers w) in
  match armed with
  | Some (due, args) =>
      if due <=? limit
      then ran = [(Z.max due time, args)]
           /\ holds {| window_timers := t; timeoutId := timeoutId w;
                       calls := calls w ++ ran |} limit None
      else ran = []
           /\ holds {| window_timers := t; timeoutId := timeoutId w;
                       calls := calls w ++ ran |} limit armed
  | None =>
      ran = []
      /\ holds {| window_timers := t; timeoutId := timeoutId w;
                  calls := calls w ++ ran |} limit None
  end.
Proof.
  intros [Hnow Hp]. cbn zeta. unfold idle. rewrite Hnow.
  destruct armed as [[due args] |].
  - destruct Hp as (id & Hid & Hp). rewrite Hp, map_size_singleton.
    cbn [run_due]. rewrite Hp, earliest_singleton.
    destruct (due <=? time + Z.max 0 ms) eqn:E.
    + cbn. rewrite delete_singleton_eq, Hnow.
      split; [reflexivity |]. split; reflexivity.
    + cbn. split; [reflexivity |]. split; [reflexivity |].
      exists id. split; [exact Hid | exact Hp].
  - rewrite Hp, map_size_empty. cbn. split; [reflexivity |].
    split; [reflexivity | exact Hp].
Qed.

(** The calls made along a trace. *)
Lemma run_calls delay (trace : list (event A)) :
  forall (w : debounced A) time armed,
  holds w time armed ->
  calls (run delay trace w)
  = calls w ++ debounced_calls (timeout_of (default 300 delay)) time armed trace
  /\ (size (pending (window_timers (run delay trace w))) <= 1)%nat.
Proof.
  induction trace as [| e trace IH]; intros w time armed H.
  - cbn. rewrite app_nil_r. split; [reflexivity |].
    destruct H as [_ Hp]. destruct armed as [x |].
    + destruct Hp as (id & _ & ->). now rewrite map_size_singleton.
    + rewrite Hp, map_size_empty. lia.
  - unfold run. cbn [foldl]. fold (run delay trace (step delay w e)).
    destruct e as [args | ms | ms]; cbn [step debounced_calls].
    + destruct (holds_debounce delay args w time armed H) as [H' E].
      destruct (IH _ _ _ H') as [I1 I2]. rewrite I1, E. now split.
    + assert (H' : holds {| window_timers := busy ms (window_timers w);
                            timeoutId := timeoutId w; calls := calls w |}
                         (time + Z.max 0 ms) armed).
      { destruct H as [Hnow Hp]. split; [cbn; now rewrite Hnow | exact Hp]. }
      destruct (IH _ _ _ H') as [I1 I2]. rewrite I1. now split.
    + pose proof (holds_idle ms w time armed H) as Hi. cbn zeta in Hi.
      destruct (idle ms (window_timers w)) as [t ran].
      destruct armed as [[due args] |].
      * destruct (due <=? time + Z.max 0 ms); destruct Hi as [-> H'];
          destruct (IH _ _ _ H') as [I1 I2]; rewrite I1; cbn [calls];
          (split; [rewrite <- app_assoc; reflexivity | exact I2]).
      * destruct Hi as [-> H']. destruct (IH _ _ _ H') as [I1 I2].
        rewrite I1. cbn [calls].
        split; [rewrite <- app_assoc; reflexivity | exact I2].
Qed.

Lemma holds_fresh time : holds (fresh time : debounced A) time None.
Proof. split; reflexivity. Qed.

(** X19.  Whatever happens to a debounced function (invocations, time
    that passes while other code runs, time that passes with the event
    loop free), the calls of [func] are the debounced ones: each
    invocation replaces the call that was armed by one that is due one
    delay later, and an armed call is made, once, when the event loop is
    free at or after that time.  At no time is more than one timer
    pending. *)
Theorem debounce_calls (delay : option Z) (trace : list (event A)) (time : Z) :
  calls (run delay trace (fresh time))
  = debounced_calls (timeout_of (default 300 delay)) time None trace
  /\ (size (pending (window_timers (run delay trace (fresh time)))) <= 1)%nat.
Proof. exact (run_calls delay trace (fresh time) time None (holds_fresh time)). Qed.

Lemma burst_calls timeout (pauses : list (A * Z)) : forall time armed args rest,
  (forall p, p ∈ pauses -> 0 <= p.2 < timeout) ->
  debounced_calls timeout time armed (burst pauses ++ Invoke args :: rest)
  = debounced_calls timeout (time + foldr Z.add 0 (snd <$> pauses))
                    (Some (time + foldr Z.add 0 (snd <$> pauses) + timeout, args))
                    rest.
Proof.
  induction pauses as [| [a ms] pauses IH]; intros time armed args rest H.
  - cbn. now rewrite Z.add_0_r.
  - unfold burst. cbn [fmap list_fmap concat app debounced_calls foldr snd].
    fold (burst pauses).
    assert (Hms : 0 <= ms < timeout) by exact (H (a, ms) ltac:(left)).
    rewrite Z.max_r by lia.
    destruct (Z.leb_spec (time + timeout) (time + ms)) as [L | L]; [lia |].
    rewrite IH by (intros p Hp; apply H; now right).
    f_equal; [lia |]. f_equal. f_equal. lia.
Qed.

(** X20.  A burst of invocations, each less than one delay after the one
    before, makes no call of [func] while it lasts, and ends in exactly one
    call, with the arguments of the last invocation, one delay after
    it. *)
Theorem debounce_burst (delay : option Z) (pauses : list (A * Z))
    (args : A) (ms time : Z) :
  let timeout := timeout_of (default 300 delay) in
  (forall p, p ∈ pauses -> 0 <= p.2 < timeout) ->
  timeout <= ms ->
  calls (run delay (burst pauses ++ [Invoke args; Idle ms]) (fresh time))
  = [(time + foldr Z.add 0 (snd <$> pauses) + timeout, args)].
Proof.
  intros timeout Hp Hms.
  rewrite (proj1 (run_calls delay _ (fresh time) time None (holds_fresh time))).
  cbn [calls fresh app]. fold timeout. rewrite (burst_calls timeout pauses) by exact Hp.
  cbn [debounced_calls]. pose proof (timeout_of_nonneg (default 300 delay)).
  fold timeout in H. rewrite (Z.max_r 0 ms) by lia.
  set (T := time + foldr Z.add 0 (snd <$> pauses)).
  destruct (Z.leb_spec (T + timeout) (T + ms)) as [L | L]; [| lia].
  f_equal. f_equal. lia.
Qed.

End Calls.

(** The theorem on three keystrokes, 100 and 299 milliseconds apart, with
    the default delay of 300 milliseconds. *)
Lemma debounce_burst_witness :
  calls (run None (burst [("a", 100%Z); ("ab", 299%Z)]
                   ++ [Invoke "abc"; Idle 300%Z])
             (fresh 0%Z))
  = [(699%Z, "abc")].
Proof.
  refine (debounce_burst None [("a", 100%Z); ("ab", 299%Z)] "abc" 300%Z 0%Z _ _).
  - intros p Hp. apply elem_of_cons in Hp as [-> | Hp]; [now vm_compute |].
    apply list_elem_of_singleton in Hp as ->. now vm_compute.
  - now vm_compute.
Defined.

End DebounceFacts.

(** ** The cases of [__tests__/helpers.test.js]

    The embedding gives what the test suite of the repository expects
    (the cases of [calculateDistance] apart, which is not embedded). *)

Module TestSuite.

Import JSNumber JSString JSValue Helpers.

Local Open Scope string_scope.

Example test_formatDistance :
  formatDistance (dec 5 1) = "500 m"
  /\ formatDistance (dec 123 3) = "123 m"
  /\ formatDistance (dec 15 1) = "1.50 km"
  /\ formatDistance (Fin 100) = "100.00 km".
Proof. repeat split; now vm_compute. Qed.

Example test_formatTime :
  formatTime (Fin 30) = "30 min"
  /\ formatTime (Fin 45) = "45 min"
  /\ formatTime (Fin 90) = "1h 30m"
  /\ formatTime (Fin 125) = "2h 5m"
  /\ formatTime (Fin 60) = "1h 0m"
  /\ formatTime (Fin 120) = "2h 0m".
Proof. repeat split; now vm_compute. Qed.

Example test_validateDeliveryData :
  validateDeliveryData
    (Array [ {[ "id" := Num (Fin 1); "customer_name" := Str "Test";
                "lat" := Num (dec 407128 4); "lng" := Num (dec (-740060) 4);
                "address" := Str "123 Main St" ]} ])
  = Validation true []
  /\ validateDeliveryData
       (Array [ {[ "id" := Num (Fin 1); "customer_name" := Str "Test" ]} ])
     = Validation false
         [ "Row 1: Missing or empty field 'lat'";
           "Row 1: Missing or empty field 'lng'";
           "Row 1: Missing or empty field 'address'" ]
  /\ validateDeliveryData
       (Array [ {[ "id" := Num (Fin 1); "customer_name" := Str "Test";
                   "lat" := Num (Fin 100); "lng" := Num (dec (-740060) 4);
                   "address" := Str "123 Main St" ]} ])
     = Validation false [ "Row 1: Invalid latitude value (100)" ]
  /\ isValid (validateDeliveryData (Array [])) = false.
Proof. repeat split; now vm_compute. Qed.

Example test_validateConstraints :
  validateConstraints (Constraints (Num (Fin 10)) (Num (Fin 100)) "Warehouse")
  = Validation true ∅
  /\ validateConstraints (Constraints (Num (Fin 0)) (Num (Fin 100)) "Warehouse")
     = Validation false {[ "maxStopsPerRoute" := "Must be at least 1" ]}
  /\ validateConstraints (Constraints (Num (Fin 10)) (Num (Fin 100)) "")
     = Validation false {[ "startLocation" := "Start location is required" ]}.
Proof. repeat split; now vm_compute. Qed.

Example test_getRouteColor :
  getRouteColor 0 = Some "#3B82F6"
  /\ getRouteColor 1 = Some "#EF4444"
  /\ getRouteColor 8 = getRouteColor 0.
Proof. repeat split. Qed.

End TestSuite.
